(** * MagentaA11y content loader: a shallow embedding of [src/content-loader.ts]

    The development follows the class [ContentLoader]: the parsed content
    document, the loader's four mutable fields, and every public method as a
    function on that state.  Rejected promises and thrown exceptions are the
    [Throw] results of a small error monad.

    Two things the loader calls are not part of the repository: the
    [fuse.js] matcher and the host's [String.prototype.localeCompare].  Both
    are fields of the class [Runtime]; what the proofs need from them is
    stated as explicit laws.

    Strings are [string]: sequences of 8-bit code units.  On ASCII strings
    (every code unit below 128) they are the program's strings, with the same
    lengths and positions, and [toLowerCase] is the program's case folding.
    Beyond ASCII the program's [toLowerCase] and [toUpperCase] can change the
    length of a string, which these strings cannot follow: every statement
    below that depends on case folding is made for ASCII strings only
    ([ascii_only]).  Numbers that the loader only compares or uses as
    positions are [Z]; Fuse scores are rationals. *)

From Stdlib Require Import List String Ascii ZArith QArith Bool Lia Lqa Sorted Permutation.
From Stdlib Require OrderedTypeEx.
Import ListNotations.
Local Open Scope string_scope.
Local Open Scope Z_scope.

Set Implicit Arguments.

(** ** Errors and the result monad *)

Inductive Format : Type :=
  | Gherkin | Condensed | DeveloperNotes | AndroidDeveloperNotes | IosDeveloperNotes.

(** One constructor per [throw] site of the loader, plus the [TypeError] the
    host raises when a platform key of the document is [undefined]. *)
Inductive Error : Type :=
  | ContentNotLoaded                       (* 'Content not loaded' *)
  | SearchIndexNotInitialized              (* 'Search index not initialized' *)
  | ComponentNotFound (componentName : string)
  | ContentNotAvailable (format : Format) (componentName : string)
  | FailedToInitialize                     (* 'Failed to initialize content. ...' *)
  | TypeError.

(** The error taxonomy of the specification. *)
Inductive ErrorKind : Type :=
  | NotInitialized | NotFound | FormatUnavailable | LoadError | HostError.

Definition kind (e : Error) : ErrorKind :=
  match e with
  | ContentNotLoaded | SearchIndexNotInitialized => NotInitialized
  | ComponentNotFound _ => NotFound
  | ContentNotAvailable _ _ => FormatUnavailable
  | FailedToInitialize => LoadError
  | TypeError => HostError
  end.

Inductive Result (A : Type) : Type :=
  | Ok (a : A)
  | Throw (e : Error).
Arguments Ok {A} a.
Arguments Throw {A} e.

Definition bind {A B : Type} (r : Result A) (k : A -> Result B) : Result B :=
  match r with
  | Ok a => k a
  | Throw e => Throw e
  end.

Notation "x <- r ;; k" := (bind r (fun x => k))
  (at level 61, r at next level, right associativity).

Definition succeeds {A : Type} (r : Result A) : Prop := exists a, r = Ok a.
Definition fails_with {A : Type} (r : Result A) (k : ErrorKind) : Prop :=
  exists e, r = Throw e /\ kind e = k.

(** ** JavaScript values the loader relies on *)

(** Truthiness of an optional string property: [undefined] and [''] are falsy. *)
Definition truthy (o : option string) : bool :=
  match o with
  | Some s => negb (s =? "")%string
  | None => false
  end.

(** [o || ''] *)
Definition or_empty (o : option string) : string :=
  match o with
  | Some s => s
  | None => ""
  end.

Definition slen (s : string) : Z := Z.of_nat (String.length s).

Definition lower_ascii (c : ascii) : ascii :=
  let n := nat_of_ascii c in
  if ((65 <=? n)%nat && (n <=? 90)%nat)%bool then ascii_of_nat (n + 32) else c.

(** [s.toLowerCase()] on ASCII strings: the capitals A to Z are folded,
    one code unit for one. *)
Fixpoint toLowerCase (s : string) : string :=
  match s with
  | EmptyString => EmptyString
  | String c t => String (lower_ascii c) (toLowerCase t)
  end.

(** [text.indexOf(q)]: position of the first occurrence, [-1] when absent. *)
Definition indexOf (text q : string) : Z :=
  match String.index 0 q text with
  | Some i => Z.of_nat i
  | None => -1
  end.

(** [s.substring(a, b)]: both arguments are clamped to [0, length] and
    swapped when out of order. *)
Definition clamp (s : string) (i : Z) : Z := Z.max 0 (Z.min i (slen s)).

Definition js_substring (s : string) (a b : Z) : string :=
  let lo := Z.min (clamp s a) (clamp s b) in
  let hi := Z.max (clamp s a) (clamp s b) in
  String.substring (Z.to_nat lo) (Z.to_nat (hi - lo)) s.

(** [l.slice(0, k)]: a negative [k] counts from the end of the array. *)
Definition slice0 {A : Type} (l : list A) (k : Z) : list A :=
  if k <? 0
  then firstn (Z.to_nat (Z.max 0 (Z.of_nat (List.length l) + k))) l
  else firstn (Z.to_nat k) l.

(** [Array.prototype.sort(cmp)].  The sort is stable; for a comparator that
    is a total preorder its result is the one computed here by insertion,
    where an element goes in front of the first element it does not exceed. *)
Section ArraySort.
Variable A : Type.
Variable cmp : A -> A -> Z.

Fixpoint insert_by (x : A) (l : list A) : list A :=
  match l with
  | [] => [x]
  | y :: t => if cmp x y <=? 0 then x :: y :: t else y :: insert_by x t
  end.

Definition Array_sort (l : list A) : list A := fold_right insert_by [] l.
End ArraySort.

(** The comparison of the default [sort()]: code units, lexicographically. *)
Definition codeUnitCompare (a b : string) : Z :=
  match String.compare a b with
  | Lt => -1
  | Eq => 0
  | Gt => 1
  end.

(** ** Data model *)

Inductive Platform : Type := Web | Native.

Record ContentItem : Type := {
  label : string;
  name : string;
  type : option string;
  generalNotes : option string;
  gherkin : option string;
  condensed : option string;
  criteria : option string;
  videos : option string;
  androidDeveloperNotes : option string;
  iosDeveloperNotes : option string;
  developerNotes : option string;
  categoryName : option string;
  categoryLabel : option string
}.

Record ContentCategory : Type := {
  cat_label : string;
  cat_name : string;
  children : list ContentItem
}.

(** The document is cast, not validated: a platform key may be missing. *)
Record ContentStructure : Type := {
  web : option (list ContentCategory);
  native : option (list ContentCategory);
  how_to_test : option (list ContentCategory)
}.

Record ComponentMetadata : Type := {
  md_name : string;
  displayName : string;
  md_category : string;
  md_platform : Platform;
  hasGherkin : bool;
  hasCondensed : bool;
  hasDeveloperNotes : bool;
  hasAndroidNotes : bool;
  hasIOSNotes : bool
}.

Record SearchMatch : Type := {
  field : string;
  snippet : string
}.

Record SearchResult : Type := {
  component : string;
  sr_displayName : string;
  sr_category : string;
  sr_categoryLabel : string;
  sr_matches : list SearchMatch;
  relevance : Q
}.

(** [content[platform]] *)
Definition platform_categories (c : ContentStructure) (p : Platform)
  : option (list ContentCategory) :=
  match p with
  | Web => web c
  | Native => native c
  end.

(** [component[format]] *)
Definition format_field (f : Format) (item : ContentItem) : option string :=
  match f with
  | Gherkin => gherkin item
  | Condensed => condensed item
  | DeveloperNotes => developerNotes item
  | AndroidDeveloperNotes => androidDeveloperNotes item
  | IosDeveloperNotes => iosDeveloperNotes item
  end.

Definition format_name (f : Format) : string :=
  match f with
  | Gherkin => "gherkin"
  | Condensed => "condensed"
  | DeveloperNotes => "developerNotes"
  | AndroidDeveloperNotes => "androidDeveloperNotes"
  | IosDeveloperNotes => "iosDeveloperNotes"
  end.

(** [{ ...item, categoryName: category.name, categoryLabel: category.label }] *)
Definition with_category (item : ContentItem) (category : ContentCategory) : ContentItem :=
  {| label := label item;
     name := name item;
     type := type item;
     generalNotes := generalNotes item;
     gherkin := gherkin item;
     condensed := condensed item;
     criteria := criteria item;
     videos := videos item;
     androidDeveloperNotes := androidDeveloperNotes item;
     iosDeveloperNotes := iosDeveloperNotes item;
     developerNotes := developerNotes item;
     categoryName := Some (cat_name category);
     categoryLabel := Some (cat_label category) |}.

(** ** The Fuse interface *)

Record FuseKey : Type := {
  key_name : string;
  weight : Q
}.

Record Fuse (T : Type) : Type := {
  docs : list T;
  keys : list FuseKey;
  threshold : Q;
  getFn : T -> string -> option string
}.

Record FuseMatch : Type := {
  fm_key : option string;
  fm_value : option string
}.

Record FuseResult (T : Type) : Type := {
  item : T;
  refIndex : nat;
  score : option Q;
  matches : option (list FuseMatch)
}.

(** What the loader takes from its host: the collation behind
    [localeCompare], and [Fuse.search(query, { limit })]. *)
Class Runtime : Type := {
  localeCompare : string -> string -> Z;
  fuse_search : forall T : Type, Fuse T -> string -> option Z -> list (FuseResult T)
}.

(** Property access by key name, as Fuse's default [getFn] does it. *)
Definition item_prop (it : ContentItem) (k : string) : option string :=
  if (k =? "label")%string then Some (label it)
  else if (k =? "name")%string then Some (name it)
  else if (k =? "generalNotes")%string then generalNotes it
  else if (k =? "gherkin")%string then gherkin it
  else if (k =? "condensed")%string then condensed it
  else if (k =? "developerNotes")%string then developerNotes it
  else None.

Definition metadata_prop (m : ComponentMetadata) (k : string) : option string :=
  if (k =? "name")%string then Some (md_name m)
  else if (k =? "displayName")%string then Some (displayName m)
  else None.

(** ** The loader *)

Record ContentLoader : Type := {
  content : option ContentStructure;
  webSearchIndex : option (Fuse ContentItem);
  nativeSearchIndex : option (Fuse ContentItem);
  indexed : bool
}.

(** [new ContentLoader()] *)
Definition new_ContentLoader : ContentLoader :=
  {| content := None; webSearchIndex := None; nativeSearchIndex := None; indexed := false |}.

Definition set_content (st : ContentLoader) (c : option ContentStructure) : ContentLoader :=
  {| content := c;
     webSearchIndex := webSearchIndex st;
     nativeSearchIndex := nativeSearchIndex st;
     indexed := indexed st |}.

Definition set_webSearchIndex (st : ContentLoader) (i : Fuse ContentItem) : ContentLoader :=
  {| content := content st;
     webSearchIndex := Some i;
     nativeSearchIndex := nativeSearchIndex st;
     indexed := indexed st |}.

Definition set_nativeSearchIndex (st : ContentLoader) (i : Fuse ContentItem) : ContentLoader :=
  {| content := content st;
     webSearchIndex := webSearchIndex st;
     nativeSearchIndex := Some i;
     indexed := indexed st |}.

Definition set_indexed (st : ContentLoader) (b : bool) : ContentLoader :=
  {| content := content st;
     webSearchIndex := webSearchIndex st;
     nativeSearchIndex := nativeSearchIndex st;
     indexed := b |}.

(** The categories of a platform, with the two ways the access can throw:
    [if (!this.content) throw ...], and iterating an [undefined] key. *)
Definition categories_of (st : ContentLoader) (p : Platform) : Result (list ContentCategory) :=
  match content st with
  | None => Throw ContentNotLoaded
  | Some c =>
      match platform_categories c p with
      | None => Throw TypeError
      | Some categories => Ok categories
      end
  end.

Definition search_keys : list FuseKey :=
  [ {| key_name := "label"; weight := 3 # 10 |};
    {| key_name := "name"; weight := 3 # 10 |};
    {| key_name := "generalNotes"; weight := 1 # 10 |};
    {| key_name := "gherkin"; weight := 1 # 10 |};
    {| key_name := "condensed"; weight := 1 # 10 |};
    {| key_name := "developerNotes"; weight := 1 # 10 |} ].

(** The two nested loops of [createSearchIndex]. *)
Definition index_items (categories : list ContentCategory) : list ContentItem :=
  flat_map (fun category => map (fun it => with_category it category) (children category))
           categories.

(** [new Fuse(items, { keys: [...], threshold: 0.3 })] *)
Definition new_Fuse (items : list ContentItem) : Fuse ContentItem :=
  {| docs := items;
     keys := search_keys;
     threshold := 3 # 10;
     getFn := item_prop |}.

Definition createSearchIndex (st : ContentLoader) (p : Platform) : Result (Fuse ContentItem) :=
  categories <- categories_of st p ;;
  Ok (new_Fuse (index_items categories)).

(** [reduce((count, category) => count + category.children.length, 0)] *)
Definition component_count (categories : list ContentCategory) : nat :=
  fold_left (fun count category => (count + List.length (children category))%nat) categories 0%nat.

(** *** initialize

    What the awaited [readFile] and the following [JSON.parse] can deliver.
    A parsed document is taken to be null or an object in which each
    platform key is either missing or an array of well-formed categories. *)
Inductive Json : Type :=
  | JNull                                  (* null, or any other falsy value *)
  | JObject (c : ContentStructure).

Inductive FileOutcome : Type :=
  | ReadFails
  | ParseFails
  | Parsed (v : Json).

Definition json_content (v : Json) : option ContentStructure :=
  match v with
  | JNull => None
  | JObject c => Some c
  end.

(** The synchronous head of [initialize], up to the [await]. *)
Inductive Entered : Type :=
  | Returned       (* [if (this.indexed) return] *)
  | Awaiting.      (* [readFile] has been issued *)

Definition initialize_enter (st : ContentLoader) : Entered :=
  if indexed st then Returned else Awaiting.

(** The rest of [initialize], run when the read settles.  Every exception of
    the [try] block is caught and rethrown as the one initialization error;
    assignments made before the exception stay. *)
Definition initialize_resume (file : FileOutcome) (st : ContentLoader)
  : ContentLoader * Result unit :=
  match file with
  | ReadFails | ParseFails => (st, Throw FailedToInitialize)
  | Parsed v =>
      let st1 := set_content st (json_content v) in
      match createSearchIndex st1 Web with
      | Throw _ => (st1, Throw FailedToInitialize)
      | Ok wi =>
          let st2 := set_webSearchIndex st1 wi in
          match createSearchIndex st2 Native with
          | Throw _ => (st2, Throw FailedToInitialize)
          | Ok ni =>
              let st3 := set_nativeSearchIndex st2 ni in
              (set_indexed st3 true, Ok tt)
          end
      end
  end.

(** A call that runs to completion before anything else happens. *)
Definition initialize (file : FileOutcome) (st : ContentLoader)
  : ContentLoader * Result unit :=
  match initialize_enter st with
  | Returned => (st, Ok tt)
  | Awaiting => initialize_resume file st
  end.

(** *** Queries *)

Definition metadata_of (p : Platform) (cat : ContentCategory) (it : ContentItem)
  : ComponentMetadata :=
  {| md_name := name it;
     displayName := label it;
     md_category := cat_name cat;
     md_platform := p;
     hasGherkin := truthy (gherkin it);
     hasCondensed := truthy (condensed it);
     hasDeveloperNotes := truthy (developerNotes it);
     hasAndroidNotes := truthy (androidDeveloperNotes it);
     hasIOSNotes := truthy (iosDeveloperNotes it) |}.

(** [if (category && cat.name !== category) continue] *)
Definition skipped (category : option string) (cat : ContentCategory) : bool :=
  truthy category && negb (cat_name cat =? or_empty category)%string.

(** The components pushed by the loops of [listComponents], in push order. *)
Definition pushed_components (p : Platform) (category : option string)
    (categories : list ContentCategory) : list ComponentMetadata :=
  flat_map (fun cat => if skipped category cat then []
                       else map (metadata_of p cat) (children cat))
           categories.

Section Loader.
Context {RT : Runtime}.

Definition by_name (a b : ComponentMetadata) : Z :=
  localeCompare (md_name a) (md_name b).

Definition listComponents (st : ContentLoader) (p : Platform) (category : option string)
  : Result (list ComponentMetadata) :=
  categories <- categories_of st p ;;
  Ok (Array_sort by_name (pushed_components p category categories)).

Definition getCategories (st : ContentLoader) (p : Platform) : Result (list string) :=
  categories <- categories_of st p ;;
  Ok (Array_sort codeUnitCompare (map cat_name categories)).

Fixpoint find_component (categories : list ContentCategory) (componentName : string)
  : Result ContentItem :=
  match categories with
  | [] => Throw (ComponentNotFound componentName)
  | category :: rest =>
      match find (fun it => (name it =? componentName)%string) (children category) with
      | Some component => Ok (with_category component category)
      | None => find_component rest componentName
      end
  end.

Definition getComponent (st : ContentLoader) (p : Platform) (componentName : string)
  : Result ContentItem :=
  categories <- categories_of st p ;;
  find_component categories componentName.

Definition getComponentContent (st : ContentLoader) (p : Platform)
    (componentName : string) (format : Format) : Result string :=
  component <- getComponent st p componentName ;;
  let content := format_field format component in
  if negb (truthy content)
  then Throw (ContentNotAvailable format componentName)
  else Ok (or_empty content).

(** [extractSnippet(text, query, maxLength = 200)] *)
Definition extractSnippet (text query : string) (maxLength : Z) : string :=
  let queryLower := toLowerCase query in
  let textLower := toLowerCase text in
  let index := indexOf textLower queryLower in
  if index =? -1 then js_substring text 0 maxLength
  else
    let start := Z.max 0 (index - 50) in
    let end_ := Z.min (slen text) (index + slen query + 150) in
    let snippet := js_substring text start end_ in
    let snippet := if 0 <? start then "..." ++ snippet else snippet in
    let snippet := if end_ <? slen text then snippet ++ "..." else snippet in
    snippet.

(** [result.score || 0]: an absent score and a zero score are both falsy. *)
Definition score_or_0 {T : Type} (r : FuseResult T) : Q :=
  match score r with
  | Some s => s
  | None => 0%Q
  end.

Definition search_matches (query : string) (ms : option (list FuseMatch)) : list SearchMatch :=
  match ms with
  | None => []
  | Some l =>
      flat_map (fun m =>
                  if truthy (fm_value m) && truthy (fm_key m)
                  then [ {| field := or_empty (fm_key m);
                            snippet := extractSnippet (or_empty (fm_value m)) query 200 |} ]
                  else [])
               l
  end.

Definition search_result (query : string) (r : FuseResult ContentItem) : SearchResult :=
  {| component := name (item r);
     sr_displayName := label (item r);
     sr_category := or_empty (categoryName (item r));
     sr_categoryLabel := or_empty (categoryLabel (item r));
     sr_matches := search_matches query (matches r);
     relevance := (1 - score_or_0 r)%Q |}.

Definition search (st : ContentLoader) (p : Platform) (query : string) (maxResults : Z)
  : Result (list SearchResult) :=
  let searchIndex := match p with
                     | Web => webSearchIndex st
                     | Native => nativeSearchIndex st
                     end in
  match searchIndex with
  | None => Throw SearchIndexNotInitialized
  | Some idx => Ok (map (search_result query) (fuse_search idx query (Some maxResults)))
  end.

Definition getSimilarComponents (st : ContentLoader) (p : Platform)
    (componentName : string) (limit : Z) : Result (list string) :=
  components <- listComponents st p None ;;
  let fuse := {| docs := components;
                 keys := [ {| key_name := "name"; weight := 1 |};
                           {| key_name := "displayName"; weight := 1 |} ];
                 threshold := 1 # 2;
                 getFn := metadata_prop |} in
  let results := fuse_search fuse componentName None in
  Ok (map (fun r => md_name (item r)) (slice0 results limit)).

Definition formats_of (m : ComponentMetadata) : list string :=
  (if hasGherkin m then ["gherkin"] else [])
  ++ (if hasCondensed m then ["condensed"] else [])
  ++ (if hasDeveloperNotes m then ["developerNotes"] else [])
  ++ (if hasAndroidNotes m then ["androidDeveloperNotes"] else [])
  ++ (if hasIOSNotes m then ["iosDeveloperNotes"] else []).

(** The whole body sits in [try { ... } catch { return [] }]. *)
Definition getAvailableFormats (st : ContentLoader) (p : Platform) (componentName : string)
  : Result (list string) :=
  match listComponents st p None with
  | Throw _ => Ok []
  | Ok components =>
      match find (fun c => (md_name c =? componentName)%string) components with
      | None => Ok []
      | Some component => Ok (formats_of component)
      end
  end.

End Loader.

(** ** Overlapping calls of [initialize]

    The host runs one piece of code at a time and switches only at an
    [await].  A call of [initialize] therefore takes part in two events: it
    enters (and either returns at once or issues its read), and later its
    read settles and the rest of the body runs.  All pending calls are alike,
    so the process only counts them.  [loads] counts the reads issued and
    [builds] the completed index builds; neither is a field of the loader. *)

Inductive Event : Type :=
  | Call        (* some caller invokes [initialize()] *)
  | Settle.     (* the read of one pending call settles *)

Record Process : Type := {
  loader : ContentLoader;
  pending : nat;
  loads : nat;
  builds : nat
}.

Definition fresh_process : Process :=
  {| loader := new_ContentLoader; pending := 0; loads := 0; builds := 0 |}.

Definition step (file : FileOutcome) (pr : Process) (ev : Event) : Process :=
  match ev with
  | Call =>
      match initialize_enter (loader pr) with
      | Returned => pr
      | Awaiting =>
          {| loader := loader pr; pending := S (pending pr);
             loads := S (loads pr); builds := builds pr |}
      end
  | Settle =>
      match pending pr with
      | O => pr
      | S k =>
          let (st', r) := initialize_resume file (loader pr) in
          {| loader := st'; pending := k; loads := loads pr;
             builds := match r with
                       | Ok _ => S (builds pr)
                       | Throw _ => builds pr
                       end |}
      end
  end.

Definition run (file : FileOutcome) (evs : list Event) (pr : Process) : Process :=
  fold_left (step file) evs pr.

(** Two calls, the second made after the first has resolved, and two calls
    made before either read has settled. *)
Definition sequential_twice : list Event := [Call; Settle; Call; Settle].
Definition overlapping_twice : list Event := [Call; Call; Settle; Settle].

(** ** A small host

    A deterministic stand-in for the two host services: code-unit collation,
    and a matcher that scores a document 0 when a keyed field equals the
    query up to case and 1/4 when a keyed field contains it, drops documents
    above the index threshold, orders the hits by score and cuts the list at
    a limit above -1.  It shows that the laws asked of a host below can be
    met, and lets the examples compute. *)
Module SampleHost.

Definition contains (text q : string) : bool :=
  negb (indexOf (toLowerCase text) (toLowerCase q) =? -1).

Definition field_score (q : string) (v : option string) : option Q :=
  match v with
  | None => None
  | Some s =>
      if (toLowerCase s =? toLowerCase q)%string then Some 0%Q
      else if contains s q then Some (1 # 4)%Q
      else None
  end.

Definition best (a b : option Q) : option Q :=
  match a, b with
  | Some x, Some y => if Qle_bool x y then Some x else Some y
  | Some x, None => Some x
  | None, _ => b
  end.

Definition doc_score {T : Type} (f : Fuse T) (q : string) (d : T) : option Q :=
  fold_right (fun k acc => best (field_score q (getFn f d (key_name k))) acc)
             None (keys f).

Definition doc_matches {T : Type} (f : Fuse T) (q : string) (d : T) : list FuseMatch :=
  flat_map (fun k => match field_score q (getFn f d (key_name k)) with
                     | Some _ => [ {| fm_key := Some (key_name k);
                                      fm_value := getFn f d (key_name k) |} ]
                     | None => []
                     end)
           (keys f).

Definition hit {T : Type} (f : Fuse T) (q : string) (entry : nat * T)
  : list (FuseResult T) :=
  match doc_score f q (snd entry) with
  | Some s =>
      if Qle_bool s (threshold f)
      then [ {| item := snd entry; refIndex := fst entry;
                score := Some s; matches := Some (doc_matches f q (snd entry)) |} ]
      else []
  | None => []
  end.

Definition hits {T : Type} (f : Fuse T) (q : string) : list (FuseResult T) :=
  flat_map (hit f q) (combine (seq 0 (List.length (docs f))) (docs f)).

Definition by_score {T : Type} (a b : FuseResult T) : Z :=
  match (score_or_0 a ?= score_or_0 b)%Q with
  | Lt => -1
  | Eq => 0
  | Gt => 1
  end.

Definition sample_search {T : Type} (f : Fuse T) (q : string) (limit : option Z)
  : list (FuseResult T) :=
  let results := Array_sort by_score (hits f q) in
  match limit with
  | Some k => if -1 <? k then firstn (Z.to_nat k) results else results
  | None => results
  end.

#[global] Instance host : Runtime :=
  {| localeCompare := codeUnitCompare;
     fuse_search := @sample_search |}.

(** *** A corpus: "button" occurs in two web categories. *)

Definition sample_item (l n : string) (g c d a i : option string) : ContentItem :=
  {| label := l; name := n; type := None; generalNotes := None;
     gherkin := g; condensed := c; criteria := None; videos := None;
     androidDeveloperNotes := a; iosDeveloperNotes := i; developerNotes := d;
     categoryName := None; categoryLabel := None |}.

Definition button : ContentItem :=
  sample_item "Button" "button" (Some "Given a button...") None None None None.
Definition checkbox : ContentItem :=
  sample_item "Checkbox" "checkbox" None (Some "") (Some "Use a native input") None None.
Definition form_button : ContentItem :=
  sample_item "Submit button" "button" None (Some "Submits the form") None None None.
Definition switch : ContentItem :=
  sample_item "Switch" "switch" None None None (Some "Use SwitchCompat") (Some "Use UISwitch").

Definition controls : ContentCategory :=
  {| cat_label := "Controls"; cat_name := "controls"; children := [button; checkbox] |}.
Definition forms : ContentCategory :=
  {| cat_label := "Forms"; cat_name := "forms"; children := [form_button] |}.
Definition native_controls : ContentCategory :=
  {| cat_label := "Controls"; cat_name := "controls"; children := [switch] |}.

Definition corpus : ContentStructure :=
  {| web := Some [controls; forms]; native := Some [native_controls];
     how_to_test := Some [] |}.

(** The same document without its [native] key. *)
Definition web_only : ContentStructure :=
  {| web := Some [controls; forms]; native := None; how_to_test := None |}.

Definition ready : ContentLoader :=
  fst (initialize (Parsed (JObject corpus)) new_ContentLoader).

Definition half_loaded : ContentLoader :=
  fst (initialize (Parsed (JObject web_only)) new_ContentLoader).

Fixpoint replicate (n : nat) (c : ascii) : string :=
  match n with
  | O => EmptyString
  | S k => String c (replicate k c)
  end.

(** 100 times "a", one "b", 300 times "a". *)
Definition long_text : string :=
  replicate 100 "a"%char ++ "b" ++ replicate 300 "a"%char.

End SampleHost.

(** ** Vocabulary of the statements *)

(** A string of ASCII characters: every code unit is below 128. *)
Fixpoint ascii_only (s : string) : bool :=
  match s with
  | EmptyString => true
  | String c t => (nat_of_ascii c <? 128)%nat && ascii_only t
  end.

(** An occurrence of [q] in [t] at position [i], and the first one. *)
Definition occurs_at (q t : string) (i : nat) : Prop :=
  String.substring i (String.length q) t = q.

Definition first_occurrence (q t : string) (i : nat) : Prop :=
  occurs_at q t i /\ forall j, (j < i)%nat -> ~ occurs_at q t j.

(** The query [q] matches the text [t] at position [i] up to case, and does
    so there for the first time. *)
Definition matches_at (q t : string) (i : nat) : Prop :=
  toLowerCase (String.substring i (String.length q) t) = toLowerCase q.


(** The loader once a call of [initialize] on a fresh instance has resolved. *)
Definition Ready (st : ContentLoader) : Prop :=
  exists file, initialize file new_ContentLoader = (st, Ok tt).

(** The state a successful load of document [c] leaves, [ws] and [ns] being
    its web and native categories. *)
Definition ready_state (c : ContentStructure) (ws ns : list ContentCategory) : ContentLoader :=
  {| content := Some c;
     webSearchIndex := Some (new_Fuse (index_items ws));
     nativeSearchIndex := Some (new_Fuse (index_items ns));
     indexed := true |}.

(** The categories a platform holds; empty when there is nothing to read. *)
Definition corpus_of (st : ContentLoader) (p : Platform) : list ContentCategory :=
  match categories_of st p with
  | Ok categories => categories
  | Throw _ => []
  end.

Definition has_component (categories : list ContentCategory) (n : string) : Prop :=
  exists cat it, In cat categories /\ In it (children cat) /\ name it = n.

(** The two tests by name: [item => item.name === componentName] and
    [c => c.name === componentName]. *)
Definition named (n : string) (it : ContentItem) : bool := (name it =? n)%string.
Definition md_named (n : string) (m : ComponentMetadata) : bool := (md_name m =? n)%string.

(** A field that is there and is not the empty string. *)
Definition present (f : Format) (it : ContentItem) : Prop :=
  exists s, format_field f it = Some s /\ s <> "".

(** The presence flag that [listComponents] reports for a format. *)
Definition flag (f : Format) (m : ComponentMetadata) : bool :=
  match f with
  | Gherkin => hasGherkin m
  | Condensed => hasCondensed m
  | DeveloperNotes => hasDeveloperNotes m
  | AndroidDeveloperNotes => hasAndroidNotes m
  | IosDeveloperNotes => hasIOSNotes m
  end.

Definition name_ascending {RT : Runtime} (a b : ComponentMetadata) : Prop :=
  localeCompare (md_name a) (md_name b) <= 0.

Definition relevance_descending (a b : SearchResult) : Prop :=
  (relevance b <= relevance a)%Q.

Definition relevance_in_unit (r : SearchResult) : Prop :=
  (0 <= relevance r /\ relevance r <= 1)%Q.

(** An optional score that, when there, lies between 0 and 1. *)
Definition unit_score (o : option Q) : Prop :=
  forall s, o = Some s -> (0 <= s /\ s <= 1)%Q.

Definition score_ascending {T : Type} (a b : FuseResult T) : Prop :=
  (score_or_0 a <= score_or_0 b)%Q.


(** Resolution of a name that several categories hold in favour of the last
    category, in load order, that holds it. *)
Definition last_category_wins (st : ContentLoader) (p : Platform) (n : string) : Prop :=
  forall pre cat post,
    corpus_of st p = (pre ++ cat :: post)%list ->
    (exists it, In it (children cat) /\ name it = n) ->
    (forall c it, In c post -> In it (children c) -> name it <> n) ->
    exists it, In it (children cat) /\ name it = n /\
               getComponent st p n = Ok (with_category it cat).

(** Every query of the public surface failing for want of initialization. *)
Definition all_queries_fail_uninitialized {RT : Runtime} (st : ContentLoader) : Prop :=
  forall p category n f q k,
    fails_with (listComponents st p category) NotInitialized /\
    fails_with (getCategories st p) NotInitialized /\
    fails_with (getComponent st p n) NotInitialized /\
    fails_with (getComponentContent st p n f) NotInitialized /\
    fails_with (search st p q k) NotInitialized /\
    fails_with (getSimilarComponents st p n k) NotInitialized /\
    fails_with (getAvailableFormats st p n) NotInitialized.

(** A failed [initialize] after which no content query answers. *)
Definition no_partial_state {RT : Runtime} (file : FileOutcome) : Prop :=
  forall st e,
    initialize file new_ContentLoader = (st, Throw e) ->
    forall p category n,
      ~ succeeds (listComponents st p category) /\
      ~ succeeds (getCategories st p) /\
      ~ succeeds (getComponent st p n).

(** At most one read and one index build over a whole schedule. *)
Definition at_most_one_build (file : FileOutcome) (evs : list Event) : Prop :=
  (loads (run file evs fresh_process) <= 1)%nat /\
  (builds (run file evs fresh_process) <= 1)%nat.

(** ** The rest of the loader: display names *)

(** [c.toUpperCase()] for an ASCII character: the letters a to z are
    capitalised, one code unit for one. *)
Definition upper_ascii (c : ascii) : ascii :=
  let n := nat_of_ascii c in
  if ((97 <=? n)%nat && (n <=? 122)%nat)%bool then ascii_of_nat (n - 32) else c.

(** [s.split(sep)] for a one-character separator: the empty string splits
    into one empty word. *)
Fixpoint split_on (sep : ascii) (s : string) : list string :=
  match s with
  | EmptyString => [EmptyString]
  | String c t =>
      if Ascii.eqb c sep then EmptyString :: split_on sep t
      else match split_on sep t with
           | w :: ws => String c w :: ws
           | [] => [String c EmptyString]
           end
  end.

(** [word.charAt(0).toUpperCase() + word.slice(1)] *)
Definition capitalize (word : string) : string :=
  match word with
  | EmptyString => EmptyString
  | String c t => String (upper_ascii c) t
  end.

(** [formatDisplayName(name)] *)
Definition formatDisplayName (name : string) : string :=
  String.concat " " (map capitalize (split_on "-"%char name)).

(** The same text read one character at a time: [start] says that the next
    character opens a word. *)
Fixpoint display_from (start : bool) (s : string) : string :=
  match s with
  | EmptyString => EmptyString
  | String c t =>
      if Ascii.eqb c "-"%char then String " "%char (display_from true t)
      else String (if start then upper_ascii c else c) (display_from false t)
  end.

Fixpoint hyphen_free (s : string) : bool :=
  match s with
  | EmptyString => true
  | String c t => negb (Ascii.eqb c "-"%char) && hyphen_free t
  end.

(** The index a platform is searched through. *)
Definition index_of (st : ContentLoader) (p : Platform) : option (Fuse ContentItem) :=
  match p with
  | Web => webSearchIndex st
  | Native => nativeSearchIndex st
  end.

(** The five format names in the order [getAvailableFormats] pushes them. *)
Definition all_format_names : list string :=
  ["gherkin"; "condensed"; "developerNotes"; "androidDeveloperNotes"; "iosDeveloperNotes"].

(** A list of format names that holds its members in that order, once each. *)
Definition in_push_order (fs : list string) : Prop :=
  fs = filter (fun s => existsb (String.eqb s) fs) all_format_names.

(** A matcher that only returns documents of the collection it searches. *)
Definition results_from_collection {RT : Runtime} : Prop :=
  forall (T : Type) (f : Fuse T) (q : string) (lim : option Z) (r : FuseResult T),
    In r (fuse_search f q lim) -> In (item r) (docs f).

(** ** The tool handlers of the stdio server

    The handlers answer with a text that is [JSON.stringify] of a small
    object, or the raw content; here the answer is that object, before it is
    printed.  The arguments are those of the tool schemas; [category],
    [max_results] and [platform] may be missing. *)

Record ToolArgs : Type := {
  arg_category : option string;
  arg_component : string;
  arg_query : string;
  arg_max_results : option Z;
  arg_platform : option string
}.

Inductive ToolBody : Type :=
  | ComponentsBody (components : list ComponentMetadata) (categories : list string)
  | ComponentBody (componentData : ContentItem)
  | ResultsBody (results : list SearchResult)
  | TextBody (text : string)
  | NotFoundBody (component : string) (suggestions : list string)
  | UnavailableBody (error : Error) (component : string) (platform : option string)
                    (suggestions : list string) (availableFormats : list string).

Record ToolResult : Type := {
  body : ToolBody;
  isError : bool
}.

(** [args?.max_results || 10]: a missing limit and the limit 0 are falsy. *)
Definition max_results_or_10 (args : ToolArgs) : Z :=
  match arg_max_results args with
  | Some k => if k =? 0 then 10 else k
  | None => 10
  end.

(** [args.platform === 'ios' ? 'iosDeveloperNotes' : 'androidDeveloperNotes'] *)
Definition native_notes_format (args : ToolArgs) : Format :=
  match arg_platform args with
  | Some s => if (s =? "ios")%string then IosDeveloperNotes else AndroidDeveloperNotes
  | None => AndroidDeveloperNotes
  end.

Section Handlers.
Context {RT : Runtime}.

(** [handleListWebComponents] and [handleListNativeComponents] *)
Definition handleListComponents (st : ContentLoader) (p : Platform) (args : ToolArgs)
  : Result ToolResult :=
  components <- listComponents st p (arg_category args) ;;
  categories <- getCategories st p ;;
  Ok {| body := ComponentsBody components categories; isError := false |}.

(** [handleGetWebComponent] and [handleGetNativeComponent]: the [catch]
    block asks for suggestions with the default limit 5, and an exception
    raised there leaves the handler. *)
Definition handleGetComponent (st : ContentLoader) (p : Platform) (args : ToolArgs)
  : Result ToolResult :=
  match getComponent st p (arg_component args) with
  | Ok componentData => Ok {| body := ComponentBody componentData; isError := false |}
  | Throw _ =>
      suggestions <- getSimilarComponents st p (arg_component args) 5 ;;
      Ok {| body := NotFoundBody (arg_component args) suggestions; isError := true |}
  end.

(** [handleSearchWebCriteria] and [handleSearchNativeCriteria] *)
Definition handleSearchCriteria (st : ContentLoader) (p : Platform) (args : ToolArgs)
  : Result ToolResult :=
  let maxResults := max_results_or_10 args in
  results <- search st p (arg_query args) maxResults ;;
  Ok {| body := ResultsBody results; isError := false |}.

(** [handleGetComponentNativeNotes] *)
Definition handleGetComponentNativeNotes (st : ContentLoader) (args : ToolArgs)
  : Result ToolResult :=
  let format := native_notes_format args in
  match getComponentContent st Native (arg_component args) format with
  | Ok content => Ok {| body := TextBody content; isError := false |}
  | Throw error =>
      suggestions <- getSimilarComponents st Native (arg_component args) 5 ;;
      formats <- getAvailableFormats st Native (arg_component args) ;;
      Ok {| body := UnavailableBody error (arg_component args) (arg_platform args)
                                    suggestions formats;
            isError := true |}
  end.

End Handlers.

(** ** The shared initialization of the serverless function

    [api.js] keeps the promise of the first [contentLoader.initialize()] in
    [initPromise] and hands it to every later caller; [isInitialized] is set
    when that promise is fulfilled.  A request runs
    [if (!isInitialized) await initialize()]. *)

Inductive PromiseState : Type := Pending | Fulfilled | Rejected.

Record Gateway : Type := {
  gw_loader : ContentLoader;
  initPromise : option PromiseState;
  isInitialized : bool;
  gw_loads : nat
}.

Definition fresh_gateway : Gateway :=
  {| gw_loader := new_ContentLoader; initPromise := None;
     isInitialized := false; gw_loads := 0 |}.

Inductive GatewayEvent : Type :=
  | Request        (* a request reaches [if (!isInitialized) await initialize()] *)
  | ReadSettles.   (* the read of the pending loader call settles *)

Definition gateway_step (file : FileOutcome) (g : Gateway) (ev : GatewayEvent) : Gateway :=
  match ev with
  | Request =>
      if isInitialized g then g
      else match initPromise g with
           | Some _ => g
           | None =>
               match initialize_enter (gw_loader g) with
               | Returned =>
                   {| gw_loader := gw_loader g; initPromise := Some Fulfilled;
                      isInitialized := true; gw_loads := gw_loads g |}
               | Awaiting =>
                   {| gw_loader := gw_loader g; initPromise := Some Pending;
                      isInitialized := false; gw_loads := S (gw_loads g) |}
               end
           end
  | ReadSettles =>
      match initPromise g with
      | Some Pending =>
          let (st', r) := initialize_resume file (gw_loader g) in
          match r with
          | Ok _ =>
              {| gw_loader := st'; initPromise := Some Fulfilled;
                 isInitialized := true; gw_loads := gw_loads g |}
          | Throw _ =>
              {| gw_loader := st'; initPromise := Some Rejected;
                 isInitialized := false; gw_loads := gw_loads g |}
          end
      | _ => g
      end
  end.

Definition gateway_run (file : FileOutcome) (evs : list GatewayEvent) (g : Gateway) : Gateway :=
  fold_left (gateway_step file) evs g.

(** * Facts about the host functions *)

(** ** [Array.prototype.sort] *)
Section SortFacts.
Variable A : Type.
Variable cmp : A -> A -> Z.

Lemma insert_by_perm (x : A) (l : list A) : Permutation (insert_by cmp x l) (x :: l).
Proof.
  induction l as [|y t IH]; simpl.
  - apply Permutation_refl.
  - destruct (cmp x y <=? 0).
    + apply Permutation_refl.
    + eapply Permutation_trans; [apply perm_skip, IH | apply perm_swap].
Qed.

Lemma Array_sort_perm (l : list A) : Permutation (Array_sort cmp l) l.
Proof.
  induction l as [|x t IH]; simpl.
  - constructor.
  - eapply Permutation_trans; [apply insert_by_perm | apply perm_skip, IH].
Qed.

Lemma Array_sort_length (l : list A) :
  List.length (Array_sort cmp l) = List.length l.
Proof. apply Permutation_length, Array_sort_perm. Qed.

Lemma Array_sort_In (x : A) (l : list A) : In x (Array_sort cmp l) <-> In x l.
Proof.
  split; apply Permutation_in; [|apply Permutation_sym]; apply Array_sort_perm.
Qed.

Section Ordered.
Hypothesis cmp_total : forall a b, 0 < cmp a b -> cmp b a <= 0.
Hypothesis cmp_trans : forall a b c, cmp a b <= 0 -> cmp b c <= 0 -> cmp a c <= 0.

Local Abbreviation le := (fun a b : A => cmp a b <= 0).

Lemma insert_by_sorted (x : A) (l : list A) :
  StronglySorted le l -> StronglySorted le (insert_by cmp x l).
Proof.
  induction 1 as [|y t Ht IH Hy]; simpl.
  - repeat constructor.
  - destruct (cmp x y <=? 0) eqn:E.
    + apply Z.leb_le in E. constructor.
      * constructor; assumption.
      * constructor; [exact E|].
        eapply Forall_impl; [|exact Hy]. intros z Hz. eapply cmp_trans; eassumption.
    + apply Z.leb_gt in E. constructor; [exact IH|].
      eapply Permutation_Forall; [apply Permutation_sym, insert_by_perm|].
      constructor; [apply cmp_total; exact E | exact Hy].
Qed.

Lemma Array_sort_sorted (l : list A) : StronglySorted le (Array_sort cmp l).
Proof.
  induction l as [|x t IH]; simpl.
  - constructor.
  - apply insert_by_sorted, IH.
Qed.
End Ordered.

(** Stability, in the form the loader uses it: elements that a predicate
    selects and the comparator does not separate keep their order. *)
Section Stable.
Variable P : A -> bool.
Hypothesis P_tied : forall x y, P x = true -> P y = true -> cmp x y <= 0.

Lemma insert_by_filter (x : A) (l : list A) :
  filter P (insert_by cmp x l) = filter P (x :: l).
Proof.
  induction l as [|y t IH]; [reflexivity|].
  simpl insert_by. destruct (cmp x y <=? 0) eqn:E; [reflexivity|].
  apply Z.leb_gt in E.
  change (filter P (y :: insert_by cmp x t)) with
    (if P y then y :: filter P (insert_by cmp x t) else filter P (insert_by cmp x t)).
  rewrite IH. simpl.
  destruct (P x) eqn:Px, (P y) eqn:Py; try reflexivity.
  specialize (P_tied Px Py). lia.
Qed.

Lemma Array_sort_filter (l : list A) : filter P (Array_sort cmp l) = filter P l.
Proof.
  induction l as [|x t IH]; [reflexivity|].
  simpl Array_sort. rewrite insert_by_filter. simpl. rewrite IH. reflexivity.
Qed.

Lemma find_head_filter (l : list A) : find P l = hd_error (filter P l).
Proof.
  induction l as [|x t IH]; [reflexivity|].
  simpl. destruct (P x); [reflexivity | exact IH].
Qed.

Lemma Array_sort_find (l : list A) : find P (Array_sort cmp l) = find P l.
Proof. rewrite !find_head_filter, Array_sort_filter. reflexivity. Qed.
End Stable.
End SortFacts.

Lemma firstn_In (A : Type) (n : nat) (l : list A) (x : A) :
  In x (firstn n l) -> In x l.
Proof.
  intros H. rewrite <- (firstn_skipn n l). apply in_or_app. left. exact H.
Qed.

Lemma StronglySorted_firstn (A : Type) (R : A -> A -> Prop) (n : nat) (l : list A) :
  StronglySorted R l -> StronglySorted R (firstn n l).
Proof.
  intros H. revert n. induction H as [|x t Ht IH Hx]; intros [|n]; simpl; try constructor.
  - apply IH.
  - rewrite Forall_forall in *. intros y Hy. apply Hx. eapply firstn_In; eauto.
Qed.

Lemma StronglySorted_impl (A : Type) (R S : A -> A -> Prop) (l : list A) :
  (forall a b, R a b -> S a b) ->
  StronglySorted R l -> StronglySorted S l.
Proof.
  intros HRS. induction 1 as [|x t Ht IH Hx]; constructor.
  - exact IH.
  - eapply Forall_impl; [|exact Hx]. intros y. apply HRS.
Qed.

Lemma StronglySorted_map (A B : Type) (R : A -> A -> Prop) (S : B -> B -> Prop)
    (f : A -> B) (l : list A) :
  (forall a b, R a b -> S (f a) (f b)) ->
  StronglySorted R l -> StronglySorted S (map f l).
Proof.
  intros HRS. induction 1 as [|x t Ht IH Hx]; simpl; constructor.
  - exact IH.
  - rewrite Forall_forall in *. intros y Hy.
    apply in_map_iff in Hy. destruct Hy as [a [<- Ha]]. auto.
Qed.

(** ** Strings *)

Lemma length_append (a b : string) :
  String.length (a ++ b) = (String.length a + String.length b)%nat.
Proof. induction a as [|c a IH]; simpl; [reflexivity | now rewrite IH]. Qed.

Lemma append_empty_r (s : string) : s ++ "" = s.
Proof. induction s as [|c s IH]; simpl; [reflexivity | now rewrite IH]. Qed.

Lemma append_assoc (a b c : string) : (a ++ b) ++ c = a ++ b ++ c.
Proof. induction a as [|ch a IH]; simpl; [reflexivity | now rewrite IH]. Qed.

Lemma length_substring (n m : nat) (s : string) :
  String.length (String.substring n m s) = Nat.min m (String.length s - n).
Proof.
  revert n m. induction s as [|c s IH]; intros [|n] [|m]; simpl; try reflexivity.
  - rewrite IH. now rewrite Nat.sub_0_r.
  - apply IH.
  - apply IH.
Qed.

Lemma toLowerCase_length (s : string) :
  String.length (toLowerCase s) = String.length s.
Proof. induction s as [|c s IH]; simpl; [reflexivity | now rewrite IH]. Qed.

Lemma occurs_at_bound (q t : string) (i : nat) :
  first_occurrence q t i -> (i + String.length q <= String.length t)%nat.
Proof.
  intros [Hi Hfirst]. destruct q as [|c q].
  - destruct i as [|i]; [simpl; lia|].
    exfalso. apply (Hfirst 0%nat); [lia|].
    unfold occurs_at. simpl. destruct t; reflexivity.
  - unfold occurs_at in Hi. apply (f_equal String.length) in Hi.
    rewrite length_substring in Hi. cbn [String.length] in *. lia.
Qed.

Lemma indexOf_found (q t : string) (i : nat) :
  first_occurrence q t i -> indexOf t q = Z.of_nat i.
Proof.
  intros [Hi Hfirst]. unfold indexOf.
  destruct (String.index 0 q t) as [m|] eqn:E.
  - f_equal.
    pose proof (index_correct1 _ _ _ _ E) as Hm.
    pose proof (index_correct2 _ _ _ _ E) as Hbefore.
    destruct (Nat.lt_trichotomy m i) as [Hlt | [Heq | Hgt]].
    + exfalso. exact (Hfirst m Hlt Hm).
    + exact Heq.
    + exfalso. apply (Hbefore i); [lia | exact Hgt | exact Hi].
  - exfalso. destruct q as [|c q].
    + apply index_correct4 in E. lia.
    + refine (index_correct3 _ _ _ _ E _ _ Hi); [discriminate | lia].
Qed.

Lemma indexOf_absent (q t : string) :
  (forall i, ~ occurs_at q t i) -> indexOf t q = -1.
Proof.
  intros Hnone. unfold indexOf.
  destruct (String.index 0 q t) as [m|] eqn:E; [|reflexivity].
  exfalso. exact (Hnone m (index_correct1 _ _ _ _ E)).
Qed.

(** On positions already in range and in order, [substring(a, b)] is the
    library substring of length [b - a]. *)
Lemma js_substring_in_range (s : string) (a b : Z) :
  0 <= a <= b -> b <= slen s ->
  js_substring s a b = String.substring (Z.to_nat a) (Z.to_nat (b - a)) s.
Proof.
  intros Hab Hb. unfold js_substring, clamp.
  replace (Z.max 0 (Z.min a (slen s))) with a by lia.
  replace (Z.max 0 (Z.min b (slen s))) with b by lia.
  replace (Z.min a b) with a by lia. replace (Z.max a b) with b by lia.
  reflexivity.
Qed.

Lemma js_substring_prefix (s : string) (n : Z) :
  0 <= n ->
  js_substring s 0 n = String.substring 0 (Z.to_nat n) s.
Proof.
  intros Hn. unfold js_substring, clamp, slen.
  replace (Z.max 0 (Z.min 0 (Z.of_nat (String.length s)))) with 0 by lia.
  set (m := Z.max 0 (Z.min n (Z.of_nat (String.length s)))).
  replace (Z.min 0 m) with 0 by lia. replace (Z.max 0 m) with m by lia.
  rewrite Z.sub_0_r. simpl Z.to_nat.
  assert (Hm : Z.to_nat m = Nat.min (Z.to_nat n) (String.length s)) by lia.
  rewrite Hm. clear. generalize (Z.to_nat n). intros k.
  revert k. induction s as [|c s IH]; intros [|k]; simpl; try reflexivity.
  now rewrite IH.
Qed.

(** * The loader *)

(** ** What a ready loader holds *)

Lemma Ready_inv (st : ContentLoader) :
  Ready st ->
  exists c ws ns wi ni,
    content st = Some c /\ web c = Some ws /\ native c = Some ns /\
    webSearchIndex st = Some wi /\ nativeSearchIndex st = Some ni /\
    indexed st = true.
Proof.
  intros [file Hinit]. unfold initialize in Hinit. simpl in Hinit.
  destruct file as [| |[|c]]; simpl in Hinit; try discriminate.
  unfold createSearchIndex, categories_of in Hinit. simpl in Hinit.
  destruct (web c) as [ws|] eqn:Hw; simpl in Hinit; try discriminate.
  destruct (native c) as [ns|] eqn:Hn; simpl in Hinit; try discriminate.
  injection Hinit as <-. simpl. eauto 12.
Qed.

Lemma Ready_categories (st : ContentLoader) (p : Platform) :
  Ready st -> categories_of st p = Ok (corpus_of st p).
Proof.
  intros H. destruct (Ready_inv H) as (c & ws & ns & wi & ni & Hc & Hw & Hn & _).
  unfold corpus_of, categories_of. rewrite Hc.
  destruct p; simpl; [rewrite Hw | rewrite Hn]; reflexivity.
Qed.

Lemma truthy_present (o : option string) :
  truthy o = true <-> exists s, o = Some s /\ s <> "".
Proof.
  unfold truthy. destruct o as [s|].
  - rewrite negb_true_iff, String.eqb_neq. split.
    + intros H. exists s. split; [reflexivity | exact H].
    + intros [s' [[= <-] H]]. exact H.
  - split; [discriminate | intros [s [[=] _]]].
Qed.

Lemma format_field_with_category (f : Format) (it : ContentItem) (cat : ContentCategory) :
  format_field f (with_category it cat) = format_field f it.
Proof. destruct f; reflexivity. Qed.

(** ** Lookup by name *)

(** The loop of [getComponent] stops in the first category that holds the
    name, on the first child of that name. *)
Lemma find_component_first (categories : list ContentCategory) (n : string) :
  (exists pre cat post it,
      categories = (pre ++ cat :: post)%list /\
      (forall c, In c pre -> find (named n) (children c) = None) /\
      find (named n) (children cat) = Some it /\
      find_component categories n = Ok (with_category it cat))
  \/ ((forall c, In c categories -> find (named n) (children c) = None) /\
      find_component categories n = Throw (ComponentNotFound n)).
Proof.
  induction categories as [|cat rest IH].
  - right. split; [intros c [] | reflexivity].
  - simpl. fold (named n). destruct (find (named n) (children cat)) as [it|] eqn:E.
    + left. exists [], cat, rest, it. repeat split; [intros c [] | exact E].
    + destruct IH as [(pre & cat' & post & it & -> & Hpre & Hfind & Hres) | [Hnone Hres]].
      * left. exists (cat :: pre), cat', post, it. repeat split; try assumption.
        intros c [<- | Hc]; [exact E | exact (Hpre c Hc)].
      * right. split; [|exact Hres].
        intros c [<- | Hc]; [exact E | exact (Hnone c Hc)].
Qed.

Lemma find_named_none (n : string) (l : list ContentItem) :
  find (named n) l = None <-> forall it, In it l -> name it <> n.
Proof.
  split.
  - intros H it Hin. apply (find_none _ _ H) in Hin.
    unfold named in Hin. now apply String.eqb_neq.
  - intros H. destruct (find (named n) l) as [it|] eqn:E; [|reflexivity].
    apply find_some in E. destruct E as [Hin Hn]. unfold named in Hn.
    apply String.eqb_eq in Hn. exfalso. exact (H it Hin Hn).
Qed.

Lemma find_named_some (n : string) (l : list ContentItem) (it : ContentItem) :
  find (named n) l = Some it -> In it l /\ name it = n.
Proof.
  intros E. apply find_some in E. destruct E as [Hin Hn].
  split; [exact Hin | now apply String.eqb_eq].
Qed.

Lemma find_component_succeeds (categories : list ContentCategory) (n : string) :
  succeeds (find_component categories n) <-> has_component categories n.
Proof.
  destruct (find_component_first categories n)
    as [(pre & cat & post & it & -> & _ & Hfind & Hres) | [Hnone Hres]].
  - apply find_named_some in Hfind. destruct Hfind as [Hin Hn]. split.
    + intros _. exists cat, it. repeat split; try assumption.
      apply in_or_app. right. left. reflexivity.
    + intros _. eexists. exact Hres.
  - split.
    + intros [r Hr]. rewrite Hres in Hr. discriminate.
    + intros (cat & it & Hcat & Hit & Hn). exfalso.
      specialize (Hnone cat Hcat). rewrite find_named_none in Hnone.
      exact (Hnone it Hit Hn).
Qed.

Lemma find_component_name (categories : list ContentCategory) (n : string) (r : ContentItem) :
  find_component categories n = Ok r -> name r = n.
Proof.
  destruct (find_component_first categories n)
    as [(pre & cat & post & it & _ & _ & Hfind & Hres) | [_ Hres]];
    rewrite Hres; intros [= <-].
  apply find_named_some in Hfind. exact (proj2 Hfind).
Qed.

Lemma find_component_error (categories : list ContentCategory) (n : string) (e : Error) :
  find_component categories n = Throw e -> e = ComponentNotFound n.
Proof.
  destruct (find_component_first categories n)
    as [(pre & cat & post & it & _ & _ & _ & Hres) | [_ Hres]];
    rewrite Hres; intros [= <-]. reflexivity.
Qed.

Lemma getComponent_ready (st : ContentLoader) (p : Platform) (n : string) :
  Ready st -> getComponent st p n = find_component (corpus_of st p) n.
Proof.
  intros H. unfold getComponent. rewrite (Ready_categories p H). reflexivity.
Qed.

(** C2: once the corpus is loaded, [getComponent(p, n)] succeeds exactly when
    some category of platform [p] holds a component named [n]; the record it
    returns has name [n]; when it fails, it fails with the not-found error. *)
Theorem getComponent_succeeds_iff_present
    (st : ContentLoader) (p : Platform) (n : string) :
  Ready st ->
  (succeeds (getComponent st p n) <-> has_component (corpus_of st p) n) /\
  (forall r, getComponent st p n = Ok r -> name r = n) /\
  (forall e, getComponent st p n = Throw e -> e = ComponentNotFound n /\ kind e = NotFound) /\
  (~ has_component (corpus_of st p) n -> fails_with (getComponent st p n) NotFound).
Proof.
  intros H. rewrite (getComponent_ready p n H). repeat split.
  - apply find_component_succeeds.
  - apply find_component_succeeds.
  - apply find_component_name.
  - eapply find_component_error; eassumption.
  - apply find_component_error in H0. subst e. reflexivity.
  - intros Habsent.
    destruct (find_component (corpus_of st p) n) as [r|e] eqn:E.
    + exfalso. apply Habsent. apply find_component_succeeds. eexists; exact E.
    + exists e. split; [reflexivity|].
      apply find_component_error in E. subst e. reflexivity.
Qed.

Lemma sample_ready : Ready SampleHost.ready.
Proof. exists (Parsed (JObject SampleHost.corpus)). reflexivity. Qed.

Lemma getComponent_succeeds_iff_present_witness :
  Ready SampleHost.ready /\
  (succeeds (getComponent SampleHost.ready Web "button")
   <-> has_component (corpus_of SampleHost.ready Web) "button").
Proof.
  split; [exact sample_ready|].
  exact (proj1 (getComponent_succeeds_iff_present Web "button" sample_ready)).
Defined.

(** C9, as the loader has it: when several categories of a platform hold a
    component named [n], [getComponent(p, n)] answers from the first of them
    in load order, with the first child of that name, whatever later
    categories hold. *)
Theorem getComponent_first_category_wins
    (st : ContentLoader) (p : Platform) (n : string)
    (pre post : list ContentCategory) (cat : ContentCategory) :
  Ready st ->
  corpus_of st p = (pre ++ cat :: post)%list ->
  (forall c it, In c pre -> In it (children c) -> name it <> n) ->
  (exists it, In it (children cat) /\ name it = n) ->
  exists it,
    find (named n) (children cat) = Some it /\
    In it (children cat) /\ name it = n /\
    getComponent st p n = Ok (with_category it cat) /\
    categoryName (with_category it cat) = Some (cat_name cat).
Proof.
  intros H Hcorpus Hpre [it0 [Hin0 Hn0]].
  rewrite (getComponent_ready p n H), Hcorpus.
  destruct (find (named n) (children cat)) as [it|] eqn:E.
  2:{ rewrite find_named_none in E. exfalso. exact (E it0 Hin0 Hn0). }
  exists it. destruct (find_named_some _ _ E) as [Hin Hn].
  repeat split; try assumption.
  clear Hcorpus. induction pre as [|c pre IH]; simpl.
  - fold (named n). rewrite E. reflexivity.
  - fold (named n).
    assert (Hc : find (named n) (children c) = None).
    { apply find_named_none. intros it' Hit'. apply (Hpre c it'); [left; reflexivity | exact Hit']. }
    rewrite Hc. apply IH. intros c' it' Hc' Hit'. apply (Hpre c' it'); [right; exact Hc' | exact Hit'].
Qed.

Lemma getComponent_first_category_wins_witness :
  exists it,
    find (named "button") (children SampleHost.controls) = Some it /\
    In it (children SampleHost.controls) /\ name it = "button" /\
    getComponent SampleHost.ready Web "button" = Ok (with_category it SampleHost.controls) /\
    categoryName (with_category it SampleHost.controls) = Some "controls".
Proof.
  apply (@getComponent_first_category_wins SampleHost.ready Web "button"
           [] [SampleHost.forms] SampleHost.controls).
  - exact sample_ready.
  - reflexivity.
  - intros c it [].
  - exists SampleHost.button. split; [left; reflexivity | reflexivity].
Defined.

(** C9 as stated fails on the sample corpus: "button" is in the categories
    [controls] and [forms], and the lookup answers from [controls]. *)
Lemma last_category_wins_fails :
  ~ last_category_wins SampleHost.ready Web "button".
Proof.
  intros H.
  destruct (H [SampleHost.controls] SampleHost.forms []) as (it & _ & _ & Hget).
  - reflexivity.
  - exists SampleHost.form_button. split; [left; reflexivity | reflexivity].
  - intros c it [].
  - apply (f_equal (fun r => match r with
                             | Ok x => categoryName x
                             | Throw _ => None
                             end)) in Hget.
    vm_compute in Hget. discriminate.
Qed.

(** ** Listing *)

Lemma find_app (A : Type) (P : A -> bool) (l1 l2 : list A) :
  find P (l1 ++ l2)%list = match find P l1 with
                           | Some x => Some x
                           | None => find P l2
                           end.
Proof.
  induction l1 as [|x t IH]; simpl; [reflexivity|].
  destruct (P x); [reflexivity | exact IH].
Qed.

Lemma find_map (A B : Type) (P : B -> bool) (f : A -> B) (l : list A) :
  find P (map f l) = option_map f (find (fun a => P (f a)) l).
Proof.
  induction l as [|x t IH]; simpl; [reflexivity|].
  destruct (P (f x)); [reflexivity | exact IH].
Qed.

Lemma pushed_components_cons (p : Platform) (cat : ContentCategory)
    (rest : list ContentCategory) :
  pushed_components p None (cat :: rest)
  = (map (metadata_of p cat) (children cat) ++ pushed_components p None rest)%list.
Proof. reflexivity. Qed.

Lemma component_count_from (categories : list ContentCategory) (a : nat) :
  fold_left (fun count category => (count + List.length (children category))%nat) categories a
  = (a + List.length (pushed_components Web None categories))%nat.
Proof.
  revert a. induction categories as [|cat rest IH]; intros a.
  - simpl. lia.
  - rewrite pushed_components_cons. simpl fold_left. rewrite IH.
    rewrite length_app, length_map. lia.
Qed.

Lemma pushed_components_length (p : Platform) (categories : list ContentCategory) :
  List.length (pushed_components p None categories) = component_count categories.
Proof.
  unfold component_count. rewrite component_count_from. simpl.
  induction categories as [|cat rest IH]; [reflexivity|].
  rewrite !pushed_components_cons, !length_app, !length_map, IH. reflexivity.
Qed.

Lemma pushed_components_In (p : Platform) (categories : list ContentCategory)
    (m : ComponentMetadata) :
  In m (pushed_components p None categories)
  <-> exists cat it, In cat categories /\ In it (children cat) /\ m = metadata_of p cat it.
Proof.
  unfold pushed_components. rewrite in_flat_map. split.
  - intros (cat & Hcat & Hm). simpl in Hm. apply in_map_iff in Hm.
    destruct Hm as (it & <- & Hit). eauto.
  - intros (cat & it & Hcat & Hit & ->). exists cat. split; [exact Hcat|].
    simpl. apply in_map. exact Hit.
Qed.

(** The first listed component of a name is the one [getComponent] returns. *)
Lemma find_pushed_component (p : Platform) (categories : list ContentCategory) (n : string) :
  match find_component categories n with
  | Ok r => exists cat it,
      r = with_category it cat /\
      find (md_named n) (pushed_components p None categories) = Some (metadata_of p cat it)
  | Throw _ => find (md_named n) (pushed_components p None categories) = None
  end.
Proof.
  induction categories as [|cat rest IH]; [reflexivity|].
  rewrite pushed_components_cons, find_app, find_map. simpl find_component.
  change (fun a => md_named n (metadata_of p cat a)) with (named n).
  change (fun it => (name it =? n)%string) with (named n).
  destruct (find (named n) (children cat)) as [it|]; simpl.
  - exists cat, it. split; reflexivity.
  - exact IH.
Qed.

Lemma flag_metadata_of (f : Format) (p : Platform) (cat : ContentCategory) (it : ContentItem) :
  flag f (metadata_of p cat it) = truthy (format_field f it).
Proof. destruct f; reflexivity. Qed.

Lemma formats_of_In (f : Format) (m : ComponentMetadata) :
  In (format_name f) (formats_of m) <-> flag f m = true.
Proof.
  unfold formats_of.
  destruct f, m as [? ? ? ? [|] [|] [|] [|] [|]]; simpl;
    (split; [intros H | intros H; try discriminate H; tauto]);
    repeat (destruct H as [H | H]; [try discriminate H; try reflexivity|]);
    try reflexivity; try contradiction.
Qed.

Section Listing.
Context {RT : Runtime}.

Lemma listComponents_ready (st : ContentLoader) (p : Platform) (category : option string) :
  Ready st ->
  listComponents st p category
  = Ok (Array_sort by_name (pushed_components p category (corpus_of st p))).
Proof.
  intros H. unfold listComponents. rewrite (Ready_categories p H). reflexivity.
Qed.

Hypothesis localeCompare_refl : forall s, localeCompare s s = 0.

(** Sorting does not change which component a name finds first. *)
Lemma find_sorted_components (n : string) (l : list ComponentMetadata) :
  find (md_named n) (Array_sort by_name l) = find (md_named n) l.
Proof.
  apply Array_sort_find. intros x y Hx Hy.
  unfold md_named in Hx, Hy. apply String.eqb_eq in Hx, Hy.
  unfold by_name. rewrite Hx, Hy, localeCompare_refl. lia.
Qed.

(** [getAvailableFormats] reports the non-empty formats of the very record
    that [getComponent] returns, and nothing when the name is unknown. *)
Lemma getAvailableFormats_resolved (st : ContentLoader) (p : Platform) (n : string) :
  Ready st ->
  match getComponent st p n with
  | Ok r => exists fs, getAvailableFormats st p n = Ok fs /\
                       forall f, In (format_name f) fs <-> present f r
  | Throw _ => getAvailableFormats st p n = Ok []
  end.
Proof.
  intros H. unfold getAvailableFormats.
  rewrite (listComponents_ready p None H), (getComponent_ready p n H).
  change (fun c => (md_name c =? n)%string) with (md_named n).
  rewrite find_sorted_components.
  pose proof (find_pushed_component p (corpus_of st p) n) as Hfind.
  destruct (find_component (corpus_of st p) n) as [r|e].
  - destruct Hfind as (cat & it & -> & ->).
    eexists. split; [reflexivity|]. intros f.
    rewrite formats_of_In, flag_metadata_of, truthy_present.
    unfold present. rewrite format_field_with_category. reflexivity.
  - rewrite Hfind. reflexivity.
Qed.

(** C3: for a component name present in the platform, each format that
    [getAvailableFormats] lists can be fetched and is non-empty text; each
    format it leaves out makes [getComponentContent] fail with the
    format-unavailable error, not the not-found one. *)
Theorem formats_round_trip (st : ContentLoader) (p : Platform) (n : string) :
  Ready st ->
  has_component (corpus_of st p) n ->
  exists fs,
    getAvailableFormats st p n = Ok fs /\
    forall f,
      (In (format_name f) fs ->
       exists s, getComponentContent st p n f = Ok s /\ s <> "") /\
      (~ In (format_name f) fs ->
       getComponentContent st p n f = Throw (ContentNotAvailable f n) /\
       fails_with (getComponentContent st p n f) FormatUnavailable /\
       ~ fails_with (getComponentContent st p n f) NotFound).
Proof.
  intros H Hhas. pose proof (getAvailableFormats_resolved p n H) as Hres.
  assert (Hget : succeeds (getComponent st p n)).
  { rewrite (getComponent_ready p n H). now apply find_component_succeeds. }
  destruct Hget as [r Hr]. rewrite Hr in Hres.
  destruct Hres as (fs & Hfs & Hin). exists fs. split; [exact Hfs|].
  intros f. unfold getComponentContent. rewrite Hr. simpl. split.
  - intros Hf. apply Hin in Hf. destruct Hf as (s & Hs & Hne).
    exists s. rewrite Hs. simpl.
    destruct (s =? "")%string eqn:E; [apply String.eqb_eq in E; contradiction|].
    split; [reflexivity | exact Hne].
  - intros Hf.
    assert (Hfalse : truthy (format_field f r) = false).
    { destruct (truthy (format_field f r)) eqn:E; [|reflexivity].
      exfalso. apply Hf, Hin, truthy_present, E. }
    rewrite Hfalse. simpl. repeat split.
    + eexists. split; reflexivity.
    + intros (e & [= <-] & He). discriminate He.
Qed.

(** C10: every component of the platform is listed with presence flags that
    are true exactly for the fields holding a non-empty string, and
    [getAvailableFormats] names exactly the formats whose field in the
    resolved record is a non-empty string; a field that holds the empty
    string has its flag false and its format left out. *)
Theorem presence_flags_nonempty (st : ContentLoader) (p : Platform) :
  Ready st ->
  exists l,
    listComponents st p None = Ok l /\
    (forall m, In m l <->
               exists cat it, In cat (corpus_of st p) /\ In it (children cat) /\
                              m = metadata_of p cat it) /\
    (forall cat it f, flag f (metadata_of p cat it) = true <-> present f it) /\
    (forall cat it f, format_field f it = Some "" -> flag f (metadata_of p cat it) = false) /\
    (forall n r, getComponent st p n = Ok r ->
                 exists fs, getAvailableFormats st p n = Ok fs /\
                            (forall f, In (format_name f) fs <-> present f r) /\
                            (forall f, format_field f r = Some "" -> ~ In (format_name f) fs)).
Proof.
  intros H. eexists. split; [apply (listComponents_ready p None H)|].
  split; [|split; [|split]].
  - intros m. rewrite Array_sort_In. apply pushed_components_In.
  - intros cat it f. rewrite flag_metadata_of. apply truthy_present.
  - intros cat it f Hempty. rewrite flag_metadata_of, Hempty. reflexivity.
  - intros n r Hr. pose proof (getAvailableFormats_resolved p n H) as Hres.
    rewrite Hr in Hres. destruct Hres as (fs & Hfs & Hin).
    exists fs. repeat split; try assumption; try (now apply Hin).
    intros f Hempty Hf. apply Hin in Hf. destruct Hf as (s & Hs & Hne).
    rewrite Hempty in Hs. injection Hs as <-. now apply Hne.
Qed.

Hypothesis localeCompare_total :
  forall a b, 0 < localeCompare a b -> localeCompare b a <= 0.
Hypothesis localeCompare_trans :
  forall a b c, localeCompare a b <= 0 -> localeCompare b c <= 0 -> localeCompare a c <= 0.

(** C7: with no category filter, [listComponents(p)] is sorted ascending by
    name and has as many entries as the categories of [p] have children in
    total. *)
Theorem listComponents_sorted_complete (st : ContentLoader) (p : Platform) :
  Ready st ->
  exists l,
    listComponents st p None = Ok l /\
    StronglySorted name_ascending l /\
    List.length l = component_count (corpus_of st p).
Proof.
  intros H. eexists. split; [apply (listComponents_ready p None H)|]. split.
  - apply (@Array_sort_sorted _ by_name).
    + intros a b. apply localeCompare_total.
    + intros a b c. apply localeCompare_trans.
  - rewrite Array_sort_length. apply pushed_components_length.
Qed.
End Listing.

(** ** The sample host meets the collation laws *)

Lemma codeUnitCompare_le (a b : string) :
  codeUnitCompare a b <= 0 <-> OrderedTypeEx.String_as_OT.lt a b \/ a = b.
Proof.
  unfold codeUnitCompare.
  destruct (String.compare a b) eqn:E.
  - apply OrderedTypeEx.String_as_OT.cmp_eq in E. split; [auto | lia].
  - apply OrderedTypeEx.String_as_OT.cmp_lt in E. split; [auto | lia].
  - split; [lia|]. intros [Hlt | Heq]; exfalso.
    + apply OrderedTypeEx.String_as_OT.cmp_lt in Hlt.
      unfold OrderedTypeEx.String_as_OT.cmp in Hlt. congruence.
    + apply OrderedTypeEx.String_as_OT.cmp_eq in Heq.
      unfold OrderedTypeEx.String_as_OT.cmp in Heq. congruence.
Qed.

Lemma codeUnitCompare_refl (s : string) : codeUnitCompare s s = 0.
Proof.
  unfold codeUnitCompare.
  assert (E : String.compare s s = Eq) by now apply OrderedTypeEx.String_as_OT.cmp_eq.
  rewrite E. reflexivity.
Qed.

Lemma codeUnitCompare_total (a b : string) :
  0 < codeUnitCompare a b -> codeUnitCompare b a <= 0.
Proof.
  unfold codeUnitCompare.
  pose proof (OrderedTypeEx.String_as_OT.cmp_antisym a b) as Hanti.
  unfold OrderedTypeEx.String_as_OT.cmp in Hanti. rewrite Hanti.
  destruct (String.compare b a); simpl; lia.
Qed.

Lemma codeUnitCompare_trans (a b c : string) :
  codeUnitCompare a b <= 0 -> codeUnitCompare b c <= 0 -> codeUnitCompare a c <= 0.
Proof.
  rewrite !codeUnitCompare_le.
  intros [Hab | ->] [Hbc | ->]; auto.
  left. eapply OrderedTypeEx.String_as_OT.lt_trans; eassumption.
Qed.

Lemma formats_round_trip_witness :
  (forall s, @localeCompare SampleHost.host s s = 0) /\
  Ready SampleHost.ready /\
  has_component (corpus_of SampleHost.ready Web) "checkbox" /\
  exists fs,
    getAvailableFormats SampleHost.ready Web "checkbox" = Ok fs /\
    forall f,
      (In (format_name f) fs ->
       exists s, getComponentContent SampleHost.ready Web "checkbox" f = Ok s /\ s <> "") /\
      (~ In (format_name f) fs ->
       getComponentContent SampleHost.ready Web "checkbox" f
       = Throw (ContentNotAvailable f "checkbox") /\
       fails_with (getComponentContent SampleHost.ready Web "checkbox" f) FormatUnavailable /\
       ~ fails_with (getComponentContent SampleHost.ready Web "checkbox" f) NotFound).
Proof.
  assert (Hhas : has_component (corpus_of SampleHost.ready Web) "checkbox").
  { exists SampleHost.controls, SampleHost.checkbox.
    split; [left; reflexivity|]. split; [right; left; reflexivity | reflexivity]. }
  split; [exact codeUnitCompare_refl|]. split; [exact sample_ready|]. split; [exact Hhas|].
  exact (@formats_round_trip SampleHost.host codeUnitCompare_refl
           SampleHost.ready Web "checkbox" sample_ready Hhas).
Defined.

Lemma presence_flags_nonempty_witness :
  (forall s, @localeCompare SampleHost.host s s = 0) /\
  Ready SampleHost.ready /\
  exists l,
    listComponents SampleHost.ready Web None = Ok l /\
    (forall m, In m l <->
               exists cat it, In cat (corpus_of SampleHost.ready Web) /\
                              In it (children cat) /\ m = metadata_of Web cat it) /\
    (forall cat it f, flag f (metadata_of Web cat it) = true <-> present f it) /\
    (forall cat it f, format_field f it = Some "" -> flag f (metadata_of Web cat it) = false) /\
    (forall n r, getComponent SampleHost.ready Web n = Ok r ->
                 exists fs, getAvailableFormats SampleHost.ready Web n = Ok fs /\
                            (forall f, In (format_name f) fs <-> present f r) /\
                            (forall f, format_field f r = Some "" -> ~ In (format_name f) fs)).
Proof.
  split; [exact codeUnitCompare_refl|]. split; [exact sample_ready|].
  exact (@presence_flags_nonempty SampleHost.host codeUnitCompare_refl
           SampleHost.ready Web sample_ready).
Defined.

Lemma listComponents_sorted_complete_witness :
  (forall a b, 0 < @localeCompare SampleHost.host a b ->
               @localeCompare SampleHost.host b a <= 0) /\
  (forall a b c, @localeCompare SampleHost.host a b <= 0 ->
                 @localeCompare SampleHost.host b c <= 0 ->
                 @localeCompare SampleHost.host a c <= 0) /\
  Ready SampleHost.ready /\
  exists l,
    listComponents SampleHost.ready Web None = Ok l /\
    StronglySorted name_ascending l /\
    List.length l = component_count (corpus_of SampleHost.ready Web).
Proof.
  split; [exact codeUnitCompare_total|]. split; [exact codeUnitCompare_trans|].
  split; [exact sample_ready|].
  exact (@listComponents_sorted_complete SampleHost.host
           codeUnitCompare_total codeUnitCompare_trans SampleHost.ready Web sample_ready).
Defined.

(** ** Search *)

Section Search.
Context {RT : Runtime}.

(** What the loader needs from [Fuse.search]: a limit that is not negative
    bounds the number of results; a score, when reported, is a distance
    between 0 and 1; results come best first. *)
Hypothesis fuse_limit :
  forall (T : Type) (f : Fuse T) (q : string) (k : Z),
    0 <= k -> Z.of_nat (List.length (fuse_search f q (Some k))) <= k.
Hypothesis fuse_score_range :
  forall (T : Type) (f : Fuse T) (q : string) (lim : option Z) (r : FuseResult T),
    In r (fuse_search f q lim) -> (0 <= score_or_0 r /\ score_or_0 r <= 1)%Q.
Hypothesis fuse_sorted :
  forall (T : Type) (f : Fuse T) (q : string) (lim : option Z),
    StronglySorted score_ascending (fuse_search f q lim).

Lemma search_ready (st : ContentLoader) (p : Platform) (q : string) (k : Z) :
  Ready st ->
  exists idx, search st p q k = Ok (map (search_result q) (fuse_search idx q (Some k))).
Proof.
  intros H. destruct (Ready_inv H) as (c & ws & ns & wi & ni & _ & _ & _ & Hwi & Hni & _).
  unfold search. destruct p; [rewrite Hwi | rewrite Hni]; eauto.
Qed.

(** C1: for every platform [p], query [q] and result count [k], once
    initialized, [search(p, q, k)] returns at most [k] results, each with
    relevance between 0 and 1, in descending order of relevance.  The
    matcher is not part of the repository; the three laws above are what is
    taken from it.  The loader's part is to hand [k] on as the limit, to
    return one result per hit in the matcher's order, and to turn a distance
    (or a missing score) into [1 - score]. *)
Theorem search_bounded_ranked
    (st : ContentLoader) (p : Platform) (q : string) (k : nat) :
  Ready st ->
  exists results,
    search st p q (Z.of_nat k) = Ok results /\
    (List.length results <= k)%nat /\
    Forall relevance_in_unit results /\
    StronglySorted relevance_descending results.
Proof.
  intros H. destruct (search_ready p q (Z.of_nat k) H) as [idx Hsearch].
  eexists. split; [exact Hsearch|]. split; [|split].
  - rewrite length_map.
    pose proof (fuse_limit idx q (k := Z.of_nat k) ltac:(lia)). lia.
  - apply Forall_forall. intros r Hr. apply in_map_iff in Hr.
    destruct Hr as (fr & <- & Hfr). apply fuse_score_range in Hfr.
    unfold relevance_in_unit, search_result. simpl. lra.
  - eapply StronglySorted_map; [|apply fuse_sorted].
    intros a b Hab. unfold score_ascending in Hab.
    unfold relevance_descending, search_result. simpl. lra.
Qed.
End Search.

(** ** The sample matcher meets the search laws *)

Lemma by_score_le (T : Type) (a b : FuseResult T) :
  SampleHost.by_score a b <= 0 <-> score_ascending a b.
Proof.
  unfold SampleHost.by_score, score_ascending. rewrite Qle_alt.
  destruct (score_or_0 a ?= score_or_0 b)%Q; split; intros H; try lia; try discriminate.
  exfalso. apply H. reflexivity.
Qed.

Lemma by_score_total (T : Type) (a b : FuseResult T) :
  0 < SampleHost.by_score a b -> SampleHost.by_score b a <= 0.
Proof.
  intros H. apply by_score_le. unfold score_ascending.
  assert (Hnot : ~ score_ascending a b) by (rewrite <- by_score_le; lia).
  unfold score_ascending in Hnot. apply Qnot_le_lt in Hnot. apply Qlt_le_weak. exact Hnot.
Qed.

Lemma by_score_trans (T : Type) (a b c : FuseResult T) :
  SampleHost.by_score a b <= 0 -> SampleHost.by_score b c <= 0 ->
  SampleHost.by_score a c <= 0.
Proof.
  rewrite !by_score_le. unfold score_ascending. apply Qle_trans.
Qed.

Lemma field_score_unit (q : string) (v : option string) :
  unit_score (SampleHost.field_score q v).
Proof.
  unfold unit_score, SampleHost.field_score. intros s.
  destruct v as [t|]; [|discriminate].
  destruct (toLowerCase t =? toLowerCase q)%string.
  - intros [= <-]. lra.
  - destruct (SampleHost.contains t q); [|discriminate].
    intros [= <-]. split; [apply Qle_bool_imp_le | apply Qle_bool_imp_le]; reflexivity.
Qed.

Lemma best_unit (a b : option Q) :
  unit_score a -> unit_score b -> unit_score (SampleHost.best a b).
Proof.
  unfold unit_score, SampleHost.best. intros Ha Hb s.
  destruct a as [x|], b as [y|]; try (destruct (Qle_bool x y)); intros [= <-]; auto.
Qed.

Lemma doc_score_unit (T : Type) (f : Fuse T) (q : string) (d : T) :
  unit_score (SampleHost.doc_score f q d).
Proof.
  unfold SampleHost.doc_score. induction (keys f) as [|k ks IH]; simpl.
  - intros s [=].
  - apply best_unit; [apply field_score_unit | exact IH].
Qed.

Lemma hits_score_range (T : Type) (f : Fuse T) (q : string) (r : FuseResult T) :
  In r (SampleHost.hits f q) -> (0 <= score_or_0 r /\ score_or_0 r <= 1)%Q.
Proof.
  unfold SampleHost.hits. rewrite in_flat_map. intros (entry & _ & Hr).
  unfold SampleHost.hit in Hr.
  destruct (SampleHost.doc_score f q (snd entry)) as [s|] eqn:E; [|contradiction].
  destruct (Qle_bool s (threshold f)); [|contradiction].
  destruct Hr as [<- | []]. unfold score_or_0. simpl.
  exact (doc_score_unit f q (snd entry) E).
Qed.

Lemma sample_search_In (T : Type) (f : Fuse T) (q : string) (lim : option Z)
    (r : FuseResult T) :
  In r (SampleHost.sample_search f q lim) -> In r (SampleHost.hits f q).
Proof.
  unfold SampleHost.sample_search. intros H.
  apply (Array_sort_In (@SampleHost.by_score T)).
  destruct lim as [k|]; [|exact H].
  destruct (-1 <? k); [eapply firstn_In; exact H | exact H].
Qed.

Lemma sample_fuse_limit (T : Type) (f : Fuse T) (q : string) (k : Z) :
  0 <= k -> Z.of_nat (List.length (@fuse_search SampleHost.host T f q (Some k))) <= k.
Proof.
  intros Hk. simpl. unfold SampleHost.sample_search.
  replace (-1 <? k) with true by (symmetry; apply Z.ltb_lt; lia).
  pose proof (firstn_le_length (Z.to_nat k)
                (Array_sort (@SampleHost.by_score T) (SampleHost.hits f q))).
  lia.
Qed.

Lemma sample_fuse_score_range (T : Type) (f : Fuse T) (q : string) (lim : option Z)
    (r : FuseResult T) :
  In r (@fuse_search SampleHost.host T f q lim) ->
  (0 <= score_or_0 r /\ score_or_0 r <= 1)%Q.
Proof. intros H. eapply hits_score_range, sample_search_In, H. Qed.

Lemma sample_fuse_sorted (T : Type) (f : Fuse T) (q : string) (lim : option Z) :
  StronglySorted score_ascending (@fuse_search SampleHost.host T f q lim).
Proof.
  simpl. unfold SampleHost.sample_search.
  assert (Hsorted : StronglySorted score_ascending
                      (Array_sort (@SampleHost.by_score T) (SampleHost.hits f q))).
  { eapply StronglySorted_impl; [intros a b; apply by_score_le|].
    apply Array_sort_sorted; [apply by_score_total | apply by_score_trans]. }
  destruct lim as [k|]; [|exact Hsorted].
  destruct (-1 <? k); [apply StronglySorted_firstn|]; exact Hsorted.
Qed.

Lemma search_bounded_ranked_witness :
  Ready SampleHost.ready /\
  exists results,
    search SampleHost.ready Web "BUT" (Z.of_nat 1) = Ok results /\
    (List.length results <= 1)%nat /\
    Forall relevance_in_unit results /\
    StronglySorted relevance_descending results.
Proof.
  split; [exact sample_ready|].
  exact (@search_bounded_ranked SampleHost.host
           sample_fuse_limit sample_fuse_score_range sample_fuse_sorted
           SampleHost.ready Web "BUT" 1%nat sample_ready).
Defined.

(** ** Before and after [initialize] *)

Section Lifecycle.
Context {RT : Runtime}.

Lemma no_content_queries (st : ContentLoader) (p : Platform)
    (category : option string) (n : string) (f : Format) (k : Z) :
  content st = None ->
  listComponents st p category = Throw ContentNotLoaded /\
  getCategories st p = Throw ContentNotLoaded /\
  getComponent st p n = Throw ContentNotLoaded /\
  getComponentContent st p n f = Throw ContentNotLoaded /\
  getSimilarComponents st p n k = Throw ContentNotLoaded /\
  getAvailableFormats st p n = Ok [].
Proof.
  intros Hc.
  unfold getAvailableFormats, getSimilarComponents, getComponentContent, getComponent,
    getCategories, listComponents, categories_of.
  rewrite Hc. simpl. repeat split; reflexivity.
Qed.

(** C4, as the loader has it: while it holds no document and no index,
    [listComponents], [getCategories], [getComponent],
    [getComponentContent], [search] and [getSimilarComponents] fail for
    want of initialization, and [getAvailableFormats] catches that failure
    and returns the empty list. *)
Theorem uninitialized_queries (st : ContentLoader) :
  content st = None ->
  webSearchIndex st = None ->
  nativeSearchIndex st = None ->
  forall p category n f q k,
    fails_with (listComponents st p category) NotInitialized /\
    fails_with (getCategories st p) NotInitialized /\
    fails_with (getComponent st p n) NotInitialized /\
    fails_with (getComponentContent st p n f) NotInitialized /\
    fails_with (search st p q k) NotInitialized /\
    fails_with (getSimilarComponents st p n k) NotInitialized /\
    getAvailableFormats st p n = Ok [].
Proof.
  intros Hc Hw Hn p category n f q k.
  destruct (@no_content_queries st p category n f k Hc) as (H1 & H2 & H3 & H4 & H5 & H6).
  rewrite H1, H2, H3, H4, H5, H6.
  assert (Hs : search st p q k = Throw SearchIndexNotInitialized).
  { unfold search. destruct p; [rewrite Hw | rewrite Hn]; reflexivity. }
  rewrite Hs.
  repeat split; try (eexists; split; reflexivity).
Qed.

Lemma categories_of_content (st : ContentLoader) (c : ContentStructure) (p : Platform) :
  content st = Some c ->
  categories_of st p = match platform_categories c p with
                       | Some categories => Ok categories
                       | None => Throw TypeError
                       end.
Proof. intros Hc. unfold categories_of. rewrite Hc. reflexivity. Qed.

(** C6, as the loader has it.  [initialize] can only fail on a loader whose
    [indexed] is false; it then reports the load error and leaves [indexed]
    false.  A failure to read or to parse the file leaves the loader exactly
    as it was; a file that holds null leaves it without a document; a
    document that lacks the [web] or the [native] key is stored all the
    same.  After the failure, a loader without a document (so a fresh loader
    after a read, a parse or a null failure) lets [listComponents],
    [getCategories] and [getComponent] fail for want of initialization; a
    loader with a document (the one just stored, or one kept from an earlier
    attempt) lets them answer from it for a platform the document has and
    fail with the host's type error for a platform it lacks. *)
Theorem failed_initialize_state
    (file : FileOutcome) (st0 st : ContentLoader) (e : Error) :
  initialize file st0 = (st, Throw e) ->
  kind e = LoadError /\ indexed st0 = false /\ indexed st = false /\
  (file = ReadFails \/ file = ParseFails -> st = st0) /\
  (file = Parsed JNull -> content st = None) /\
  (forall c, file = Parsed (JObject c) ->
             content st = Some c /\ (web c = None \/ native c = None)) /\
  (st0 = new_ContentLoader ->
   content st = None \/
   exists c, file = Parsed (JObject c) /\ content st = Some c /\
             (web c = None \/ native c = None)) /\
  (content st = None ->
   forall p category n,
     fails_with (listComponents st p category) NotInitialized /\
     fails_with (getCategories st p) NotInitialized /\
     fails_with (getComponent st p n) NotInitialized) /\
  (forall c, content st = Some c ->
   forall p category n,
     match platform_categories c p with
     | Some categories =>
         listComponents st p category
         = Ok (Array_sort by_name (pushed_components p category categories)) /\
         getCategories st p = Ok (Array_sort codeUnitCompare (map cat_name categories)) /\
         getComponent st p n = find_component categories n
     | None =>
         fails_with (listComponents st p category) HostError /\
         fails_with (getCategories st p) HostError /\
         fails_with (getComponent st p n) HostError
     end).
Proof.
  intros Hinit.
  assert (Hnone : content st = None ->
            forall p category n,
              fails_with (listComponents st p category) NotInitialized /\
              fails_with (getCategories st p) NotInitialized /\
              fails_with (getComponent st p n) NotInitialized).
  { intros Hc p category n.
    destruct (@no_content_queries st p category n Gherkin 0 Hc) as (H1 & H2 & H3 & _).
    rewrite H1, H2, H3. repeat split; eexists; split; reflexivity. }
  assert (Hsome : forall c, content st = Some c ->
            forall p category n,
              match platform_categories c p with
              | Some categories =>
                  listComponents st p category
                  = Ok (Array_sort by_name (pushed_components p category categories)) /\
                  getCategories st p
                  = Ok (Array_sort codeUnitCompare (map cat_name categories)) /\
                  getComponent st p n = find_component categories n
              | None =>
                  fails_with (listComponents st p category) HostError /\
                  fails_with (getCategories st p) HostError /\
                  fails_with (getComponent st p n) HostError
              end).
  { intros c Hc p category n.
    unfold listComponents, getCategories, getComponent.
    rewrite (@categories_of_content st c p Hc).
    destruct (platform_categories c p); simpl; repeat split;
      eexists; split; reflexivity. }
  assert (Hidx0 : indexed st0 = false).
  { unfold initialize, initialize_enter in Hinit.
    destruct (indexed st0); [discriminate | reflexivity]. }
  unfold initialize, initialize_enter in Hinit. rewrite Hidx0 in Hinit.
  assert (Hstate :
            e = FailedToInitialize /\ indexed st = false /\
            (file = ReadFails \/ file = ParseFails -> st = st0) /\
            (file = Parsed JNull -> content st = None) /\
            (forall c, file = Parsed (JObject c) ->
                       content st = Some c /\ (web c = None \/ native c = None))).
  { destruct file as [| |[|c]]; simpl in Hinit.
    - injection Hinit as <- <-. repeat split; try assumption; try discriminate.
    - injection Hinit as <- <-. repeat split; try assumption; try discriminate.
    - unfold createSearchIndex, categories_of in Hinit. simpl in Hinit.
      injection Hinit as <- <-. repeat split; try assumption; try discriminate.
      intros [H | H]; discriminate H.
    - unfold createSearchIndex, categories_of in Hinit. simpl in Hinit.
      destruct (web c) as [ws|] eqn:Hw; simpl in Hinit.
      + destruct (native c) as [ns|] eqn:Hn; simpl in Hinit; [discriminate|].
        injection Hinit as <- <-. split; [reflexivity|]. split; [exact Hidx0|].
        split; [intros [H | H]; discriminate H|]. split; [discriminate|].
        intros c' [= <-]. split; [reflexivity | right; exact Hn].
      + injection Hinit as <- <-. split; [reflexivity|]. split; [exact Hidx0|].
        split; [intros [H | H]; discriminate H|]. split; [discriminate|].
        intros c' [= <-]. split; [reflexivity | left; exact Hw]. }
  destruct Hstate as (-> & Hidx & Hkeep & Hnull & Hobj).
  split; [reflexivity|]. split; [exact Hidx0|]. split; [exact Hidx|].
  split; [exact Hkeep|]. split; [exact Hnull|]. split; [exact Hobj|].
  split; [|split; [exact Hnone | exact Hsome]].
  intros Hfresh. destruct file as [| |[|c]].
  - left. rewrite (Hkeep (or_introl eq_refl)), Hfresh. reflexivity.
  - left. rewrite (Hkeep (or_intror eq_refl)), Hfresh. reflexivity.
  - left. apply Hnull. reflexivity.
  - right. exists c. destruct (Hobj c eq_refl) as [Hc Hmissing]. auto.
Qed.
End Lifecycle.

Lemma uninitialized_queries_witness :
  content new_ContentLoader = None /\
  webSearchIndex new_ContentLoader = None /\
  nativeSearchIndex new_ContentLoader = None /\
  fails_with (listComponents new_ContentLoader Web None) NotInitialized /\
  fails_with (search new_ContentLoader Native "button" 10) NotInitialized /\
  getAvailableFormats new_ContentLoader Web "button" = Ok [].
Proof.
  pose proof (@uninitialized_queries SampleHost.host new_ContentLoader
                eq_refl eq_refl eq_refl) as H.
  do 3 (split; [reflexivity|]). split; [|split].
  - exact (proj1 (H Web None "button" Gherkin "button" 10)).
  - destruct (H Native None "button" Gherkin "button" 10) as (_ & _ & _ & _ & Hs & _).
    exact Hs.
  - destruct (H Web None "button" Gherkin "button" 10) as (_ & _ & _ & _ & _ & _ & Hf).
    exact Hf.
Defined.

(** C4 as stated fails on a fresh loader: [getAvailableFormats] returns the
    empty list instead of failing. *)
Lemma getAvailableFormats_uninitialized_returns :
  ~ all_queries_fail_uninitialized new_ContentLoader.
Proof.
  intros H.
  destruct (H Web None "button" Gherkin "button" 10)
    as (_ & _ & _ & _ & _ & _ & (e & He & _)).
  discriminate He.
Qed.

Lemma failed_initialize_state_witness :
  initialize ReadFails SampleHost.half_loaded
  = (SampleHost.half_loaded, Throw FailedToInitialize) /\
  kind FailedToInitialize = LoadError /\ indexed SampleHost.half_loaded = false /\
  match listComponents SampleHost.half_loaded Web None with
  | Ok l => map md_name l = ["button"; "button"; "checkbox"]
  | Throw _ => False
  end.
Proof.
  assert (Hinit : initialize ReadFails SampleHost.half_loaded
                  = (SampleHost.half_loaded, Throw FailedToInitialize)) by reflexivity.
  split; [exact Hinit|].
  destruct (@failed_initialize_state SampleHost.host _ _ _ _ Hinit)
    as (Hk & _ & Hi & _ & _ & _ & _ & _ & Hsome).
  split; [exact Hk|]. split; [exact Hi|].
  destruct (Hsome SampleHost.web_only eq_refl Web None "button") as (Hlist & _).
  rewrite Hlist. reflexivity.
Defined.

(** C6 as stated fails on a document without its [native] key:
    [initialize] fails, and [listComponents], [getCategories] and
    [getComponent] then answer for the web platform. *)
Lemma failed_initialize_leaves_content :
  ~ no_partial_state (Parsed (JObject SampleHost.web_only)).
Proof.
  intros H.
  destruct (H SampleHost.half_loaded FailedToInitialize eq_refl Web None "button")
    as (Hlist & _).
  apply Hlist. eexists. reflexivity.
Qed.

(** ** Repeated and overlapping calls of [initialize] *)

Section Schedules.
Variable c : ContentStructure.
Variables ws ns : list ContentCategory.
Hypothesis web_present : web c = Some ws.
Hypothesis native_present : native c = Some ns.

Local Abbreviation file := (Parsed (JObject c)).

(** Whatever the loader held, a settled read of a good document leaves the
    same state. *)
Lemma initialize_resume_good (st : ContentLoader) :
  initialize_resume file st = (ready_state c ws ns, Ok tt).
Proof.
  unfold initialize_resume, createSearchIndex, categories_of. simpl.
  rewrite web_present. simpl. rewrite native_present. reflexivity.
Qed.

Lemma initialize_good : initialize file new_ContentLoader = (ready_state c ws ns, Ok tt).
Proof. unfold initialize. simpl. apply initialize_resume_good. Qed.

Lemma step_loader (pr : Process) (ev : Event) :
  loader (step file pr ev) = loader pr \/ loader (step file pr ev) = ready_state c ws ns.
Proof.
  destruct ev; unfold step.
  - destruct (initialize_enter (loader pr)); left; reflexivity.
  - destruct (pending pr); [left; reflexivity|].
    rewrite initialize_resume_good. right. reflexivity.
Qed.

Lemma run_loader (evs : list Event) (pr : Process) :
  loader pr = new_ContentLoader \/ loader pr = ready_state c ws ns ->
  loader (run file evs pr) = new_ContentLoader \/
  loader (run file evs pr) = ready_state c ws ns.
Proof.
  revert pr. induction evs as [|ev evs IH]; intros pr Hpr; [exact Hpr|].
  simpl. apply IH. destruct (step_loader pr ev) as [-> | ->]; [exact Hpr | right; reflexivity].
Qed.

Lemma step_builds_le_loads (pr : Process) (ev : Event) :
  (builds pr + pending pr <= loads pr)%nat ->
  (builds (step file pr ev) + pending (step file pr ev) <= loads (step file pr ev))%nat.
Proof.
  intros H. destruct ev; unfold step.
  - destruct (initialize_enter (loader pr)); simpl; lia.
  - destruct (pending pr) eqn:E; [lia|].
    rewrite initialize_resume_good. simpl. lia.
Qed.

Lemma run_builds_le_loads (evs : list Event) (pr : Process) :
  (builds pr + pending pr <= loads pr)%nat ->
  (builds (run file evs pr) <= loads (run file evs pr))%nat.
Proof.
  revert pr. induction evs as [|ev evs IH]; intros pr H; simpl; [lia|].
  apply IH, step_builds_le_loads, H.
Qed.

Lemma settle_pending (st : ContentLoader) (k l b : nat) :
  step file {| loader := st; pending := S k; loads := l; builds := b |} Settle
  = {| loader := ready_state c ws ns; pending := k; loads := l; builds := S b |}.
Proof. unfold step. cbn [pending loader loads builds]. now rewrite initialize_resume_good. Qed.

Lemma call_fresh (k l b : nat) :
  step file {| loader := new_ContentLoader; pending := k; loads := l; builds := b |} Call
  = {| loader := new_ContentLoader; pending := S k; loads := S l; builds := b |}.
Proof. reflexivity. Qed.

Lemma call_ready (k l b : nat) :
  step file {| loader := ready_state c ws ns; pending := k; loads := l; builds := b |} Call
  = {| loader := ready_state c ws ns; pending := k; loads := l; builds := b |}.
Proof. reflexivity. Qed.

Lemma sequential_run :
  run file sequential_twice fresh_process
  = {| loader := ready_state c ws ns; pending := 0; loads := 1; builds := 1 |}.
Proof.
  unfold run, sequential_twice, fresh_process. cbn [fold_left].
  rewrite call_fresh, settle_pending, call_ready. reflexivity.
Qed.

Lemma overlapping_run :
  run file overlapping_twice fresh_process
  = {| loader := ready_state c ws ns; pending := 0; loads := 2; builds := 2 |}.
Proof.
  unfold run, overlapping_twice, fresh_process. cbn [fold_left].
  rewrite !call_fresh, !settle_pending. reflexivity.
Qed.

(** C5, as the loader has it: a call made after [initialize] has succeeded
    returns without reading, so two calls in sequence make one load and one
    build; two calls that both start before the first read settles each
    read the file and build the indices.  Whatever the schedule, a loader
    that has become ready is in the state a single call leaves, so queries
    answer alike however often [initialize] was called. *)
Theorem initialize_loads_and_state :
  (forall pr, indexed (loader pr) = true -> step file pr Call = pr) /\
  (loads (run file sequential_twice fresh_process) = 1%nat /\
   builds (run file sequential_twice fresh_process) = 1%nat) /\
  (loads (run file overlapping_twice fresh_process) = 2%nat /\
   builds (run file overlapping_twice fresh_process) = 2%nat) /\
  loader (run file sequential_twice fresh_process) = fst (initialize file new_ContentLoader) /\
  loader (run file overlapping_twice fresh_process) = fst (initialize file new_ContentLoader) /\
  (forall evs,
      indexed (loader (run file evs fresh_process)) = true ->
      loader (run file evs fresh_process) = fst (initialize file new_ContentLoader)) /\
  (forall evs,
      (builds (run file evs fresh_process) <= loads (run file evs fresh_process))%nat).
Proof.
  rewrite initialize_good. simpl fst.
  split; [|split; [|split; [|split; [|split; [|split]]]]].
  - intros pr Hpr. unfold step, initialize_enter. rewrite Hpr. reflexivity.
  - rewrite sequential_run. split; reflexivity.
  - rewrite overlapping_run. split; reflexivity.
  - rewrite sequential_run. reflexivity.
  - rewrite overlapping_run. reflexivity.
  - intros evs Hready.
    destruct (run_loader evs fresh_process (or_introl eq_refl)) as [Hnew | Hrdy].
    + rewrite Hnew in Hready. discriminate.
    + exact Hrdy.
  - intros evs. apply run_builds_le_loads. simpl. lia.
Qed.
End Schedules.

Lemma initialize_loads_and_state_witness :
  web SampleHost.corpus = Some [SampleHost.controls; SampleHost.forms] /\
  native SampleHost.corpus = Some [SampleHost.native_controls] /\
  loads (run (Parsed (JObject SampleHost.corpus)) overlapping_twice fresh_process) = 2%nat /\
  loader (run (Parsed (JObject SampleHost.corpus)) overlapping_twice fresh_process)
  = SampleHost.ready.
Proof.
  destruct (@initialize_loads_and_state SampleHost.corpus
              [SampleHost.controls; SampleHost.forms] [SampleHost.native_controls]
              eq_refl eq_refl)
    as (_ & _ & [Hloads _] & _ & Hstate & _).
  do 2 (split; [reflexivity|]). split; [exact Hloads | exact Hstate].
Defined.

(** C5 as stated fails for overlapping calls: on the sample document two
    calls that start before either read settles make two loads and two
    builds. *)
Lemma overlapping_calls_load_twice :
  ~ at_most_one_build (Parsed (JObject SampleHost.corpus)) overlapping_twice.
Proof.
  intros [Hloads _]. vm_compute in Hloads. lia.
Qed.

(** ** Snippets *)

Lemma toLowerCase_substring (n m : nat) (s : string) :
  toLowerCase (String.substring n m s) = String.substring n m (toLowerCase s).
Proof.
  revert n m. induction s as [|c s IH]; intros [|n] [|m]; simpl; try reflexivity.
  - now rewrite IH.
  - apply IH.
  - apply IH.
Qed.

Lemma matches_at_lower (q t : string) (i : nat) :
  matches_at q t i <-> occurs_at (toLowerCase q) (toLowerCase t) i.
Proof.
  unfold matches_at, occurs_at.
  rewrite toLowerCase_substring, toLowerCase_length. reflexivity.
Qed.


Lemma indexOf_cases (q t : string) :
  (exists i, first_occurrence q t i /\ indexOf t q = Z.of_nat i)
  \/ ((forall i, ~ occurs_at q t i) /\ indexOf t q = -1).
Proof.
  destruct (String.index 0 q t) as [m|] eqn:E.
  - left. exists m.
    assert (Hfirst : first_occurrence q t m).
    { split.
      - exact (index_correct1 _ _ _ _ E).
      - intros j Hj. apply (index_correct2 _ _ _ _ E); [lia | exact Hj]. }
    split; [exact Hfirst | exact (indexOf_found Hfirst)].
  - right.
    assert (Hnone : forall i, ~ occurs_at q t i).
    { intros i. destruct q as [|ch q].
      - apply index_correct4 in E. lia.
      - refine (index_correct3 _ _ _ _ E _ _); [discriminate | lia]. }
    split; [exact Hnone | exact (indexOf_absent Hnone)].
Qed.




(** ** The loader on the sample corpus *)

Example button_gherkin :
  getComponentContent SampleHost.ready Web "button" Gherkin = Ok "Given a button...".
Proof. reflexivity. Qed.

Example button_condensed_unavailable :
  getComponentContent SampleHost.ready Web "button" Condensed
  = Throw (ContentNotAvailable Condensed "button").
Proof. reflexivity. Qed.

Example missing_button_not_found :
  getComponent SampleHost.ready Web "missing-button" = Throw (ComponentNotFound "missing-button").
Proof. reflexivity. Qed.

Example checkbox_formats :
  getAvailableFormats SampleHost.ready Web "checkbox" = Ok ["developerNotes"].
Proof. reflexivity. Qed.

Example web_categories :
  getCategories SampleHost.ready Web = Ok ["controls"; "forms"].
Proof. reflexivity. Qed.

Example web_names_listed :
  match listComponents SampleHost.ready Web None with
  | Ok l => map md_name l = ["button"; "button"; "checkbox"]
  | Throw _ => False
  end.
Proof. reflexivity. Qed.

Example filtered_listing :
  match listComponents SampleHost.ready Web (Some "forms") with
  | Ok l => map displayName l = ["Submit button"]
  | Throw _ => False
  end.
Proof. reflexivity. Qed.

Example snippet_of_match :
  extractSnippet "Given a Button that is focused" "button" 200
  = "Given a Button that is focused".
Proof. reflexivity. Qed.

Example half_loaded_web_search :
  match search SampleHost.half_loaded Web "check" 3 with
  | Ok l => map component l = ["checkbox"]
  | Throw _ => False
  end.
Proof. reflexivity. Qed.

Example half_loaded_native_search :
  search SampleHost.half_loaded Native "switch" 3 = Throw SearchIndexNotInitialized.
Proof. reflexivity. Qed.

(** * Beyond the claims *)

(** ** Display names *)

Lemma split_on_nonempty (sep : ascii) (s : string) : split_on sep s <> [].
Proof.
  destruct s as [|c t]; simpl; [discriminate|].
  destruct (Ascii.eqb c sep); [discriminate|].
  destruct (split_on sep t); discriminate.
Qed.

Lemma concat_cons_char (sep : string) (c : ascii) (w : string) (rest : list string) :
  String.concat sep (String c w :: rest) = String c (String.concat sep (w :: rest)).
Proof. destruct rest; reflexivity. Qed.

(** The words of a name, the first one as it is and the others capitalised. *)
Lemma formatDisplayName_words (s : string) :
  String.concat " " (map capitalize (split_on "-"%char s)) = display_from true s /\
  String.concat " " (match split_on "-"%char s with
                     | w :: ws => w :: map capitalize ws
                     | [] => []
                     end) = display_from false s.
Proof.
  induction s as [|c t [IHt IHf]]; [split; reflexivity|].
  simpl split_on. simpl display_from.
  pose proof (split_on_nonempty "-"%char t) as Hne.
  destruct (Ascii.eqb c "-"%char).
  - destruct (split_on "-"%char t) as [|w ws] eqn:E; [contradiction|].
    split; simpl map; cbn [capitalize]; rewrite <- IHt; reflexivity.
  - destruct (split_on "-"%char t) as [|w ws] eqn:E; [contradiction|].
    split.
    + simpl map. cbn [capitalize]. rewrite concat_cons_char. f_equal. exact IHf.
    + rewrite concat_cons_char. f_equal. exact IHf.
Qed.

Lemma formatDisplayName_display (s : string) :
  formatDisplayName s = display_from true s.
Proof. exact (proj1 (formatDisplayName_words s)). Qed.

Lemma upper_ascii_not_hyphen (c : ascii) :
  Ascii.eqb c "-"%char = false -> Ascii.eqb (upper_ascii c) "-"%char = false.
Proof.
  destruct c as [[] [] [] [] [] [] [] []]; intros H; try reflexivity; discriminate H.
Qed.

Lemma upper_ascii_idempotent (c : ascii) : upper_ascii (upper_ascii c) = upper_ascii c.
Proof. destruct c as [[] [] [] [] [] [] [] []]; reflexivity. Qed.

Lemma display_from_length (b : bool) (s : string) :
  String.length (display_from b s) = String.length s.
Proof.
  revert b. induction s as [|c t IH]; intros b; [reflexivity|].
  simpl. destruct (Ascii.eqb c "-"%char); simpl; now rewrite IH.
Qed.

Lemma display_from_hyphen_free (b : bool) (s : string) :
  hyphen_free (display_from b s) = true.
Proof.
  revert b. induction s as [|c t IH]; intros b; [reflexivity|].
  simpl. destruct (Ascii.eqb c "-"%char) eqn:E; simpl.
  - apply IH.
  - rewrite IH, andb_true_r. apply negb_true_iff.
    destruct b; [apply upper_ascii_not_hyphen|]; exact E.
Qed.

Lemma display_from_false_hyphen_free (s : string) :
  hyphen_free s = true -> display_from false s = s.
Proof.
  induction s as [|c t IH]; [reflexivity|].
  simpl. intros H. apply andb_true_iff in H. destruct H as [Hc Ht].
  apply negb_true_iff in Hc. rewrite Hc, (IH Ht). reflexivity.
Qed.

Lemma display_from_true_hyphen_free (s : string) :
  hyphen_free s = true -> display_from true s = capitalize s.
Proof.
  destruct s as [|c t]; [reflexivity|].
  simpl. intros H. apply andb_true_iff in H. destruct H as [Hc Ht].
  apply negb_true_iff in Hc. rewrite Hc, (display_from_false_hyphen_free _ Ht). reflexivity.
Qed.

Lemma capitalize_display_from (s : string) :
  capitalize (display_from true s) = display_from true s.
Proof.
  destruct s as [|c t]; [reflexivity|].
  simpl. destruct (Ascii.eqb c "-"%char); simpl; [reflexivity|].
  now rewrite upper_ascii_idempotent.
Qed.

Lemma upper_ascii_ascii (c : ascii) :
  (nat_of_ascii c <? 128)%nat = true -> (nat_of_ascii (upper_ascii c) <? 128)%nat = true.
Proof.
  destruct c as [[] [] [] [] [] [] [] []]; intros H; try reflexivity; discriminate H.
Qed.

Lemma display_from_ascii_only (b : bool) (s : string) :
  ascii_only s = true -> ascii_only (display_from b s) = true.
Proof.
  revert b. induction s as [|c t IH]; intros b H; [reflexivity|].
  simpl in H. apply andb_true_iff in H. destruct H as [Hc Ht].
  simpl. destruct (Ascii.eqb c "-"%char); simpl.
  - apply IH. exact Ht.
  - rewrite (IH false Ht), andb_true_r.
    destruct b; [apply upper_ascii_ascii|]; exact Hc.
Qed.

(** X1: for a name of ASCII characters, the display name is again ASCII,
    has the length of the name and holds no hyphen; a name without hyphens
    only has its first character capitalised. *)
Theorem formatDisplayName_shape (n : string) :
  ascii_only n = true ->
  ascii_only (formatDisplayName n) = true /\
  String.length (formatDisplayName n) = String.length n /\
  hyphen_free (formatDisplayName n) = true /\
  (hyphen_free n = true -> formatDisplayName n = capitalize n).
Proof.
  intros Hascii. rewrite formatDisplayName_display. split; [|split; [|split]].
  - apply display_from_ascii_only. exact Hascii.
  - apply display_from_length.
  - apply display_from_hyphen_free.
  - apply display_from_true_hyphen_free.
Qed.

Lemma formatDisplayName_shape_witness :
  ascii_only "skip-to-content" = true /\
  formatDisplayName "skip-to-content" = "Skip To Content" /\
  String.length (formatDisplayName "skip-to-content") = String.length "skip-to-content" /\
  hyphen_free (formatDisplayName "skip-to-content") = true.
Proof.
  split; [reflexivity|]. split; [reflexivity|].
  destruct (@formatDisplayName_shape "skip-to-content" eq_refl) as (_ & Hlen & Hfree & _).
  split; [exact Hlen | exact Hfree].
Defined.

(** X2: for a name of ASCII characters, formatting its display name again
    changes nothing. *)
Theorem formatDisplayName_idempotent (n : string) :
  ascii_only n = true ->
  formatDisplayName (formatDisplayName n) = formatDisplayName n.
Proof.
  intros _. rewrite !formatDisplayName_display.
  rewrite (display_from_true_hyphen_free _ (display_from_hyphen_free true n)).
  apply capitalize_display_from.
Qed.

Lemma formatDisplayName_idempotent_witness :
  ascii_only "skip-to-content" = true /\
  formatDisplayName (formatDisplayName "skip-to-content") = formatDisplayName "skip-to-content".
Proof.
  split; [reflexivity|]. exact (@formatDisplayName_idempotent "skip-to-content" eq_refl).
Defined.

Example display_name_of_kebab :
  formatDisplayName "skip-to-content--link" = "Skip To Content  Link".
Proof. reflexivity. Qed.

(** ** Listing with a category filter, and the category list *)

Lemma skipped_nonempty (c : string) (cat : ContentCategory) :
  c <> "" -> skipped (Some c) cat = negb (cat_name cat =? c)%string.
Proof.
  intros Hc. unfold skipped. simpl.
  destruct (c =? "")%string eqn:E; [apply String.eqb_eq in E; contradiction | reflexivity].
Qed.

Lemma pushed_components_filter (p : Platform) (c : string) (categories : list ContentCategory) :
  c <> "" ->
  pushed_components p (Some c) categories
  = pushed_components p None (filter (fun cat => (cat_name cat =? c)%string) categories).
Proof.
  intros Hc. induction categories as [|cat rest IH]; [reflexivity|].
  change (pushed_components p (Some c) (cat :: rest)) with
    ((if skipped (Some c) cat then [] else map (metadata_of p cat) (children cat))
       ++ pushed_components p (Some c) rest)%list.
  rewrite (skipped_nonempty cat Hc), IH. simpl filter.
  destruct (cat_name cat =? c)%string; reflexivity.
Qed.

Section FilteredListing.
Context {RT : Runtime}.

(** X3: with a non-empty category filter [c], [listComponents] returns
    exactly the entries of the unfiltered listing whose category is [c], as
    many as the categories named [c] have children, and none when no
    category has that name; every entry carries the platform asked for.
    The empty string as filter lists everything. *)
Theorem listComponents_filtered (st : ContentLoader) (p : Platform) (c : string) :
  Ready st ->
  c <> "" ->
  exists l full,
    listComponents st p (Some c) = Ok l /\
    listComponents st p None = Ok full /\
    listComponents st p (Some "") = Ok full /\
    (forall m, In m l <-> In m full /\ md_category m = c) /\
    (forall m, In m full -> md_platform m = p) /\
    List.length l
    = component_count (filter (fun cat => (cat_name cat =? c)%string) (corpus_of st p)) /\
    ((forall cat, In cat (corpus_of st p) -> cat_name cat <> c) -> l = []).
Proof.
  intros H Hc. do 2 eexists.
  split; [apply (listComponents_ready p (Some c) H)|].
  split; [apply (listComponents_ready p None H)|].
  split; [apply (listComponents_ready p (Some "") H)|].
  rewrite (pushed_components_filter p (corpus_of st p) Hc).
  split; [|split; [|split]].
  - intros m. rewrite !Array_sort_In, !pushed_components_In. split.
    + intros (cat & it & Hcat & Hit & ->). apply filter_In in Hcat.
      destruct Hcat as [Hcat Hname]. apply String.eqb_eq in Hname.
      split; [eauto | exact Hname].
    + intros [(cat & it & Hcat & Hit & ->) Hname]. exists cat, it.
      repeat split; try assumption. apply filter_In. split; [exact Hcat|].
      apply String.eqb_eq. exact Hname.
  - intros m Hm. apply Array_sort_In, pushed_components_In in Hm.
    destruct Hm as (cat & it & _ & _ & ->). reflexivity.
  - rewrite Array_sort_length. apply pushed_components_length.
  - intros Hnone.
    assert (Hempty : filter (fun cat => (cat_name cat =? c)%string) (corpus_of st p) = []).
    { induction (corpus_of st p) as [|cat rest IH]; [reflexivity|]. simpl.
      destruct (cat_name cat =? c)%string eqn:E.
      - apply String.eqb_eq in E. exfalso. apply (Hnone cat); [left; reflexivity | exact E].
      - apply IH. intros cat' Hcat'. apply Hnone. right. exact Hcat'. }
    rewrite Hempty. reflexivity.
Qed.

(** X4: the category list is the list of category names, repeats included,
    in ascending code-unit order. *)
Theorem getCategories_sorted (st : ContentLoader) (p : Platform) :
  Ready st ->
  exists l,
    getCategories st p = Ok l /\
    StronglySorted (fun a b => codeUnitCompare a b <= 0) l /\
    Permutation l (map cat_name (corpus_of st p)).
Proof.
  intros H. unfold getCategories. rewrite (Ready_categories p H). simpl.
  eexists. split; [reflexivity|]. split.
  - apply Array_sort_sorted; [apply codeUnitCompare_total | apply codeUnitCompare_trans].
  - apply Array_sort_perm.
Qed.

End FilteredListing.

Lemma listComponents_filtered_witness :
  Ready SampleHost.ready /\ "forms" <> "" /\
  exists l full,
    listComponents SampleHost.ready Web (Some "forms") = Ok l /\
    listComponents SampleHost.ready Web None = Ok full /\
    listComponents SampleHost.ready Web (Some "") = Ok full /\
    (forall m, In m l <-> In m full /\ md_category m = "forms") /\
    (forall m, In m full -> md_platform m = Web) /\
    List.length l
    = component_count (filter (fun cat => (cat_name cat =? "forms")%string)
                              (corpus_of SampleHost.ready Web)) /\
    ((forall cat, In cat (corpus_of SampleHost.ready Web) -> cat_name cat <> "forms") -> l = []).
Proof.
  assert (Hne : "forms" <> "") by discriminate.
  split; [exact sample_ready|]. split; [exact Hne|].
  exact (@listComponents_filtered SampleHost.host SampleHost.ready Web "forms"
           sample_ready Hne).
Defined.

Lemma getCategories_sorted_witness :
  Ready SampleHost.ready /\
  exists l,
    getCategories SampleHost.ready Web = Ok l /\
    StronglySorted (fun a b => codeUnitCompare a b <= 0) l /\
    Permutation l (map cat_name (corpus_of SampleHost.ready Web)).
Proof.
  split; [exact sample_ready|].
  exact (@getCategories_sorted SampleHost.ready Web sample_ready).
Defined.

(** ** Lookups: where answers come from *)

Lemma Ready_state (st : ContentLoader) :
  Ready st ->
  exists c ws ns, web c = Some ws /\ native c = Some ns /\ st = ready_state c ws ns.
Proof.
  intros [file Hinit]. unfold initialize in Hinit. simpl in Hinit.
  destruct file as [| |[|c]]; simpl in Hinit; try discriminate.
  unfold createSearchIndex, categories_of in Hinit. simpl in Hinit.
  destruct (web c) as [ws|] eqn:Hw; simpl in Hinit; try discriminate.
  destruct (native c) as [ns|] eqn:Hn; simpl in Hinit; try discriminate.
  injection Hinit as <-. exists c, ws, ns. repeat split; assumption.
Qed.

Lemma Ready_index (st : ContentLoader) (p : Platform) :
  Ready st -> index_of st p = Some (new_Fuse (index_items (corpus_of st p))).
Proof.
  intros H. destruct (Ready_state H) as (c & ws & ns & Hw & Hn & ->).
  unfold corpus_of, categories_of. destruct p; simpl; [rewrite Hw | rewrite Hn]; reflexivity.
Qed.

Lemma index_items_In (categories : list ContentCategory) (d : ContentItem) :
  In d (index_items categories)
  <-> exists cat it, In cat categories /\ In it (children cat) /\ d = with_category it cat.
Proof.
  unfold index_items. rewrite in_flat_map. split.
  - intros (cat & Hcat & Hd). apply in_map_iff in Hd. destruct Hd as (it & <- & Hit). eauto.
  - intros (cat & it & Hcat & Hit & ->). exists cat. split; [exact Hcat|].
    apply in_map_iff. eauto.
Qed.

Lemma index_items_length (categories : list ContentCategory) :
  List.length (index_items categories) = component_count categories.
Proof.
  rewrite <- (pushed_components_length Web).
  induction categories as [|cat rest IH]; [reflexivity|].
  rewrite pushed_components_cons. unfold index_items in *. simpl.
  rewrite !length_app, !length_map, IH. reflexivity.
Qed.

(** X5: a record returned by [getComponent] is a stored component of the
    platform with the name and label of the category that holds it written
    over whatever [categoryName] and [categoryLabel] the document gave; its
    label and its five format fields are the stored ones. *)
Theorem getComponent_returns_stored (st : ContentLoader) (p : Platform) (n : string)
    (r : ContentItem) :
  Ready st ->
  getComponent st p n = Ok r ->
  exists cat it,
    In cat (corpus_of st p) /\ In it (children cat) /\
    r = with_category it cat /\
    label r = label it /\
    (forall f, format_field f r = format_field f it) /\
    categoryName r = Some (cat_name cat) /\ categoryLabel r = Some (cat_label cat).
Proof.
  intros H Hget. rewrite (getComponent_ready p n H) in Hget.
  destruct (find_component_first (corpus_of st p) n)
    as [(pre & cat & post & it & Hcorpus & _ & Hfind & Hres) | [_ Hres]];
    rewrite Hres in Hget; [|discriminate].
  injection Hget as <-. exists cat, it.
  apply find_named_some in Hfind. destruct Hfind as [Hin _].
  split; [rewrite Hcorpus; apply in_or_app; right; left; reflexivity|].
  split; [exact Hin|]. split; [reflexivity|]. split; [reflexivity|].
  split; [intros f; apply format_field_with_category|]. split; reflexivity.
Qed.

Lemma getComponent_returns_stored_witness :
  Ready SampleHost.ready /\
  getComponent SampleHost.ready Web "checkbox"
  = Ok (with_category SampleHost.checkbox SampleHost.controls) /\
  exists cat it,
    In cat (corpus_of SampleHost.ready Web) /\ In it (children cat) /\
    with_category SampleHost.checkbox SampleHost.controls = with_category it cat /\
    label (with_category SampleHost.checkbox SampleHost.controls) = label it /\
    (forall f, format_field f (with_category SampleHost.checkbox SampleHost.controls)
               = format_field f it) /\
    categoryName (with_category SampleHost.checkbox SampleHost.controls)
    = Some (cat_name cat) /\
    categoryLabel (with_category SampleHost.checkbox SampleHost.controls)
    = Some (cat_label cat).
Proof.
  split; [exact sample_ready|]. split; [reflexivity|].
  exact (@getComponent_returns_stored SampleHost.ready Web "checkbox" _
           sample_ready eq_refl).
Defined.

Section Unknown.
Context {RT : Runtime}.

(** X6: for a name that no category of the platform holds,
    [getComponentContent] fails with the component-not-found error whatever
    the format, and [getAvailableFormats] returns the empty list. *)
Theorem unknown_component (st : ContentLoader) (p : Platform) (n : string) :
  Ready st ->
  ~ has_component (corpus_of st p) n ->
  (forall f, getComponentContent st p n f = Throw (ComponentNotFound n)) /\
  getAvailableFormats st p n = Ok [].
Proof.
  intros H Habsent.
  assert (Hget : getComponent st p n = Throw (ComponentNotFound n)).
  { rewrite (getComponent_ready p n H).
    destruct (find_component (corpus_of st p) n) as [r|e] eqn:E.
    - exfalso. apply Habsent, find_component_succeeds. eexists. exact E.
    - apply find_component_error in E. now subst e. }
  split.
  - intros f. unfold getComponentContent. rewrite Hget. reflexivity.
  - unfold getAvailableFormats. rewrite (listComponents_ready p None H).
    destruct (find (fun c => (md_name c =? n)%string)
                   (Array_sort by_name (pushed_components p None (corpus_of st p))))
      as [m|] eqn:E; [|reflexivity].
    exfalso. apply find_some in E. destruct E as [Hin Hname].
    apply Array_sort_In, pushed_components_In in Hin.
    destruct Hin as (cat & it & Hcat & Hit & ->).
    apply String.eqb_eq in Hname. apply Habsent. exists cat, it. auto.
Qed.

Lemma formats_of_in_push_order (m : ComponentMetadata) : in_push_order (formats_of m).
Proof.
  destruct m as [? ? ? ? [|] [|] [|] [|] [|]]; reflexivity.
Qed.

(** X7: in every state of the loader, ready or not, [getAvailableFormats]
    returns a list and never fails; the list holds format names in the fixed
    order gherkin, condensed, developerNotes, androidDeveloperNotes,
    iosDeveloperNotes, each at most once. *)
Theorem getAvailableFormats_total (st : ContentLoader) (p : Platform) (n : string) :
  exists fs,
    getAvailableFormats st p n = Ok fs /\
    in_push_order fs /\ NoDup fs /\ incl fs all_format_names.
Proof.
  assert (Hshape : forall fs, in_push_order fs -> NoDup fs /\ incl fs all_format_names).
  { intros fs Hfs. rewrite Hfs. split.
    - apply NoDup_filter. unfold all_format_names.
      repeat (constructor; [simpl; intuition discriminate|]). constructor.
    - intros s Hs. apply filter_In in Hs. exact (proj1 Hs). }
  unfold getAvailableFormats.
  destruct (listComponents st p None) as [components|e].
  - destruct (find (fun c => (md_name c =? n)%string) components) as [m|].
    + eexists. split; [reflexivity|].
      split; [apply formats_of_in_push_order | apply Hshape, formats_of_in_push_order].
    + exists []. split; [reflexivity|]. split; [reflexivity | apply Hshape; reflexivity].
  - exists []. split; [reflexivity|]. split; [reflexivity | apply Hshape; reflexivity].
Qed.

(** X8: when the matcher only returns documents of the collection it was
    given, every search result names a component of the platform searched,
    with that component's label and the name and label of its category. *)
Theorem search_results_from_corpus (st : ContentLoader) (p : Platform) (q : string) (k : Z)
    (results : list SearchResult) :
  results_from_collection ->
  Ready st ->
  search st p q k = Ok results ->
  forall r, In r results ->
    exists cat it,
      In cat (corpus_of st p) /\ In it (children cat) /\
      component r = name it /\ sr_displayName r = label it /\
      sr_category r = cat_name cat /\ sr_categoryLabel r = cat_label cat.
Proof.
  intros Hfrom H Hsearch r Hr.
  pose proof (Ready_index p H) as Hidx. unfold search in Hsearch.
  change (match p with
          | Web => webSearchIndex st
          | Native => nativeSearchIndex st
          end) with (index_of st p) in Hsearch.
  rewrite Hidx in Hsearch. injection Hsearch as <-.
  apply in_map_iff in Hr. destruct Hr as (fr & <- & Hfr).
  apply Hfrom in Hfr. simpl in Hfr. apply index_items_In in Hfr.
  destruct Hfr as (cat & it & Hcat & Hit & Hitem).
  exists cat, it. unfold search_result; simpl. rewrite Hitem. simpl. auto 7.
Qed.

(** X9: the search index of a platform holds one record per component of
    the platform, in load order, each a stored component tagged with its
    category; its size is the count that [initialize] logs. *)
Theorem search_index_contents (st : ContentLoader) (p : Platform) :
  Ready st ->
  exists idx,
    index_of st p = Some idx /\
    docs idx = index_items (corpus_of st p) /\
    List.length (docs idx) = component_count (corpus_of st p) /\
    keys idx = search_keys /\
    (forall d, In d (docs idx) <->
               exists cat it, In cat (corpus_of st p) /\ In it (children cat) /\
                              d = with_category it cat).
Proof.
  intros H. eexists. split; [apply (Ready_index p H)|]. simpl.
  split; [reflexivity|]. split; [apply index_items_length|].
  split; [reflexivity|]. intros d. apply index_items_In.
Qed.

End Unknown.

Lemma sample_results_from_collection : @results_from_collection SampleHost.host.
Proof.
  intros T f q lim r Hr. simpl in Hr. apply sample_search_In in Hr.
  unfold SampleHost.hits in Hr. apply in_flat_map in Hr.
  destruct Hr as ([i d] & Hentry & Hr). unfold SampleHost.hit in Hr. simpl in Hr.
  destruct (SampleHost.doc_score f q d); [|contradiction].
  destruct (Qle_bool q0 (threshold f)); [|contradiction].
  destruct Hr as [<- | []]. simpl. eapply in_combine_r. exact Hentry.
Qed.

Lemma missing_button_absent :
  ~ has_component (corpus_of SampleHost.ready Web) "missing-button".
Proof.
  intros (cat & it & Hcat & Hit & Hname).
  simpl in Hcat. destruct Hcat as [<- | [<- | []]]; simpl in Hit.
  - destruct Hit as [<- | [<- | []]]; discriminate Hname.
  - destruct Hit as [<- | []]; discriminate Hname.
Qed.

Lemma unknown_component_witness :
  Ready SampleHost.ready /\
  ~ has_component (corpus_of SampleHost.ready Web) "missing-button" /\
  (forall f, getComponentContent SampleHost.ready Web "missing-button" f
             = Throw (ComponentNotFound "missing-button")) /\
  getAvailableFormats SampleHost.ready Web "missing-button" = Ok [].
Proof.
  split; [exact sample_ready|]. split; [exact missing_button_absent|].
  exact (@unknown_component SampleHost.host SampleHost.ready Web "missing-button"
           sample_ready missing_button_absent).
Defined.

Lemma search_results_from_corpus_witness :
  @results_from_collection SampleHost.host /\ Ready SampleHost.ready /\
  exists results,
    search SampleHost.ready Web "check" 3 = Ok results /\
    forall r, In r results ->
      exists cat it,
        In cat (corpus_of SampleHost.ready Web) /\ In it (children cat) /\
        component r = name it /\ sr_displayName r = label it /\
        sr_category r = cat_name cat /\ sr_categoryLabel r = cat_label cat.
Proof.
  split; [exact sample_results_from_collection|]. split; [exact sample_ready|].
  eexists. split; [reflexivity|].
  exact (@search_results_from_corpus SampleHost.host SampleHost.ready Web "check" 3 _
           sample_results_from_collection sample_ready eq_refl).
Defined.

Lemma search_index_contents_witness :
  Ready SampleHost.ready /\
  exists idx,
    index_of SampleHost.ready Native = Some idx /\
    docs idx = index_items (corpus_of SampleHost.ready Native) /\
    List.length (docs idx) = component_count (corpus_of SampleHost.ready Native) /\
    keys idx = search_keys /\
    (forall d, In d (docs idx) <->
               exists cat it, In cat (corpus_of SampleHost.ready Native) /\
                              In it (children cat) /\ d = with_category it cat).
Proof.
  split; [exact sample_ready|].
  exact (@search_index_contents SampleHost.ready Native sample_ready).
Defined.

(** ** Snippets *)

Lemma substring_all (s : string) : String.substring 0 (String.length s) s = s.
Proof. induction s as [|c t IH]; simpl; [reflexivity | now rewrite IH]. Qed.

Lemma substring_beyond (n : nat) (s : string) :
  (String.length s <= n)%nat -> String.substring 0 n s = s.
Proof.
  revert n. induction s as [|c t IH]; intros [|n] H; simpl in *; try reflexivity; try lia.
  rewrite IH by lia. reflexivity.
Qed.

Lemma substring_append_skip (a b : string) (n m : nat) :
  String.substring (String.length a + n) m (a ++ b) = String.substring n m b.
Proof. induction a as [|c a IH]; simpl; [reflexivity | exact IH]. Qed.

Lemma substring_append_left (a b : string) (n m : nat) :
  (n + m <= String.length a)%nat ->
  String.substring n m (a ++ b) = String.substring n m a.
Proof.
  revert n m. induction a as [|c a IH]; intros n m H; simpl in H.
  - assert (n = 0%nat) by lia. assert (m = 0%nat) by lia. subst.
    simpl. destruct b; reflexivity.
  - destruct n as [|n]; simpl.
    + destruct m as [|m]; [reflexivity|]. rewrite IH by lia. reflexivity.
    + apply IH. lia.
Qed.

Lemma substring_substring (s k n m : nat) (t : string) :
  (n + m <= k)%nat ->
  String.substring n m (String.substring s k t) = String.substring (s + n) m t.
Proof.
  revert s k n m. induction t as [|c t IH]; intros s k n m H.
  - destruct s, k, n, m; reflexivity.
  - destruct s as [|s]; simpl.
    + destruct k as [|k].
      * assert (n = 0%nat) by lia. assert (m = 0%nat) by lia. subst. reflexivity.
      * destruct n as [|n]; simpl.
        -- destruct m as [|m]; [reflexivity|].
           f_equal. apply (IH 0%nat k 0%nat m). lia.
        -- apply (IH 0%nat k n m). lia.
    + apply IH. exact H.
Qed.

(** The snippet around a first match, as [extractSnippet] builds it. *)
Lemma extractSnippet_found (text query : string) (i : nat) :
  first_occurrence (toLowerCase query) (toLowerCase text) i ->
  let start := Z.max 0 (Z.of_nat i - 50) in
  let end_ := Z.min (slen text) (Z.of_nat i + slen query + 150) in
  extractSnippet text query 200
  = (if 0 <? start then "..." else "")
      ++ String.substring (Z.to_nat start) (Z.to_nat (end_ - start)) text
      ++ (if end_ <? slen text then "..." else "") /\
  Z.of_nat i + slen query <= slen text.
Proof.
  intros Hfirst start end_.
  pose proof (occurs_at_bound Hfirst) as Hbound. rewrite !toLowerCase_length in Hbound.
  assert (Hb : Z.of_nat i + slen query <= slen text) by (unfold slen; lia).
  split; [|exact Hb].
  assert (Hse : 0 <= start <= end_) by (unfold start, end_, slen in *; lia).
  assert (Hel : end_ <= slen text) by (unfold end_; lia).
  unfold extractSnippet. rewrite (indexOf_found Hfirst).
  replace (Z.of_nat i =? -1) with false by (symmetry; apply Z.eqb_neq; lia).
  fold start. fold end_. rewrite (js_substring_in_range text Hse Hel).
  destruct (0 <? start), (end_ <? slen text);
    rewrite ?append_empty_r, ?append_assoc; reflexivity.
Qed.

Lemma extractSnippet_absent (text query : string) :
  (forall i, ~ occurs_at (toLowerCase query) (toLowerCase text) i) ->
  extractSnippet text query 200 = String.substring 0 200 text.
Proof.
  intros Hnone. unfold extractSnippet. rewrite (indexOf_absent Hnone). simpl.
  rewrite js_substring_prefix by lia. reflexivity.
Qed.

(** X10: for a text and a query of ASCII characters, a snippet is never
    longer than the query plus 206 characters: 50 before the match, 150
    after it and two ellipsis markers. *)
Theorem extractSnippet_length (text query : string) :
  ascii_only text = true ->
  ascii_only query = true ->
  (String.length (extractSnippet text query 200) <= String.length query + 206)%nat.
Proof.
  intros _ _.
  destruct (indexOf_cases (toLowerCase query) (toLowerCase text))
    as [(i & Hfirst & _) | [Hnone _]].
  - destruct (extractSnippet_found text query Hfirst) as [Heq Hb]. rewrite Heq.
    rewrite !length_append, length_substring.
    assert (Hlead : forall b : bool, (String.length (if b then "..." else "") <= 3)%nat)
      by (intros []; simpl; lia).
    pose proof (Hlead (0 <? Z.max 0 (Z.of_nat i - 50))).
    pose proof (Hlead (Z.min (slen text) (Z.of_nat i + slen query + 150) <? slen text)).
    unfold slen in *. lia.
  - rewrite (extractSnippet_absent text query Hnone), length_substring. lia.
Qed.

(** X11: an ASCII text of at most 50 characters is its own snippet,
    whatever the ASCII query. *)
Theorem extractSnippet_short_text (text query : string) :
  ascii_only text = true ->
  ascii_only query = true ->
  (String.length text <= 50)%nat ->
  extractSnippet text query 200 = text.
Proof.
  intros _ _ Hshort.
  destruct (indexOf_cases (toLowerCase query) (toLowerCase text))
    as [(i & Hfirst & _) | [Hnone _]].
  - destruct (extractSnippet_found text query Hfirst) as [Heq Hb]. rewrite Heq.
    unfold slen in *.
    replace (Z.max 0 (Z.of_nat i - 50)) with 0 by lia.
    replace (Z.min (Z.of_nat (String.length text))
                   (Z.of_nat i + Z.of_nat (String.length query) + 150))
      with (Z.of_nat (String.length text)) by lia.
    rewrite !Z.ltb_irrefl, Z.sub_0_r, Nat2Z.id. change (Z.to_nat 0) with 0%nat.
    cbn [append]. rewrite substring_all, append_empty_r. reflexivity.
  - rewrite (extractSnippet_absent text query Hnone). apply substring_beyond. lia.
Qed.

(** X12: for the empty query the snippet is the first 150 characters of the
    text, followed by "..." when the text is longer than that. *)
Theorem extractSnippet_empty_query (text : string) :
  extractSnippet text "" 200
  = String.substring 0 150 text ++ (if 150 <? slen text then "..." else "").
Proof.
  assert (Hfirst : first_occurrence (toLowerCase "") (toLowerCase text) 0).
  { split; [|intros j Hj; lia]. unfold occurs_at. simpl.
    destruct (toLowerCase text); reflexivity. }
  destruct (extractSnippet_found text "" Hfirst) as [Heq _]. rewrite Heq.
  unfold slen. cbn [String.length]. change (Z.of_nat 0) with 0.
  change (Z.max 0 (0 - 50)) with 0. change (0 <? 0) with false.
  rewrite Z.add_0_l. cbn [append].
  destruct (Z.le_gt_cases (Z.of_nat (String.length text)) 150) as [Hle | Hgt].
  - replace (Z.min (Z.of_nat (String.length text)) 150)
      with (Z.of_nat (String.length text)) by lia.
    rewrite !Z.ltb_irrefl, Z.sub_0_r, Nat2Z.id.
    replace (150 <? Z.of_nat (String.length text)) with false
      by (symmetry; apply Z.ltb_ge; lia).
    change (Z.to_nat 0) with 0%nat.
    rewrite substring_all. rewrite substring_beyond by lia. reflexivity.
  - replace (Z.min (Z.of_nat (String.length text)) 150) with 150 by lia.
    replace (150 <? Z.of_nat (String.length text)) with true
      by (symmetry; apply Z.ltb_lt; lia).
    reflexivity.
Qed.

(** X13: for a text and a query of ASCII characters, when the query
    matches the text somewhere, up to case, it also matches the snippet: the
    window always holds the first match whole. *)
Theorem extractSnippet_keeps_match (text query : string) (i : nat) :
  ascii_only text = true ->
  ascii_only query = true ->
  matches_at query text i ->
  exists j, matches_at query (extractSnippet text query 200) j.
Proof.
  intros _ _ Hi.
  destruct (indexOf_cases (toLowerCase query) (toLowerCase text))
    as [(m & Hfirst & _) | [Hnone _]].
  2:{ exfalso. apply (Hnone i), matches_at_lower, Hi. }
  destruct (extractSnippet_found text query Hfirst) as [Heq Hb]. rewrite Heq.
  assert (Hm : matches_at query text m) by (apply matches_at_lower; exact (proj1 Hfirst)).
  set (start := Z.max 0 (Z.of_nat m - 50)) in *.
  set (end_ := Z.min (slen text) (Z.of_nat m + slen query + 150)) in *.
  set (lead := if 0 <? start then "..." else "").
  exists (String.length lead + (m - Z.to_nat start))%nat.
  unfold matches_at in *. rewrite substring_append_skip.
  rewrite substring_append_left.
  - rewrite substring_substring.
    + replace (Z.to_nat start + (m - Z.to_nat start))%nat with m
        by (unfold start; lia).
      exact Hm.
    + unfold start, end_, slen in *. lia.
  - rewrite length_substring. unfold start, end_, slen in *. lia.
Qed.

Lemma extractSnippet_length_witness :
  ascii_only SampleHost.long_text = true /\ ascii_only "b" = true /\
  (String.length (extractSnippet SampleHost.long_text "b" 200) <= String.length "b" + 206)%nat.
Proof.
  assert (Ht : ascii_only SampleHost.long_text = true) by (vm_compute; reflexivity).
  split; [exact Ht|]. split; [reflexivity|].
  exact (@extractSnippet_length SampleHost.long_text "b" Ht eq_refl).
Defined.

Lemma extractSnippet_short_text_witness :
  ascii_only "Use a native input" = true /\ ascii_only "NATIVE" = true /\
  (String.length "Use a native input" <= 50)%nat /\
  extractSnippet "Use a native input" "NATIVE" 200 = "Use a native input".
Proof.
  assert (H : (String.length "Use a native input" <= 50)%nat) by (simpl; lia).
  do 2 (split; [reflexivity|]). split; [exact H|].
  exact (@extractSnippet_short_text "Use a native input" "NATIVE" eq_refl eq_refl H).
Defined.

Lemma extractSnippet_keeps_match_witness :
  ascii_only SampleHost.long_text = true /\ ascii_only "B" = true /\
  matches_at "B" SampleHost.long_text 100 /\
  exists j, matches_at "B" (extractSnippet SampleHost.long_text "B" 200) j.
Proof.
  assert (Ht : ascii_only SampleHost.long_text = true) by (vm_compute; reflexivity).
  assert (H : matches_at "B" SampleHost.long_text 100) by (vm_compute; reflexivity).
  split; [exact Ht|]. split; [reflexivity|]. split; [exact H|].
  exact (@extractSnippet_keeps_match SampleHost.long_text "B" 100 Ht eq_refl H).
Defined.

(** ** Suggestions *)

Lemma slice0_length (A : Type) (l : list A) (k : Z) :
  0 <= k -> Z.of_nat (List.length (slice0 l k)) <= k.
Proof.
  intros Hk. unfold slice0.
  replace (k <? 0) with false by (symmetry; apply Z.ltb_ge; lia).
  pose proof (firstn_le_length (Z.to_nat k) l). lia.
Qed.

Lemma slice0_In (A : Type) (l : list A) (k : Z) (x : A) :
  In x (slice0 l k) -> In x l.
Proof. unfold slice0. destruct (k <? 0); apply firstn_In. Qed.

Section Suggestions.
Context {RT : Runtime}.

(** X14: whatever the matcher returns and whatever state the loader is in,
    [getSimilarComponents] with a limit that is not negative returns at most
    that many names; with limit 0 it returns none. *)
Theorem getSimilarComponents_bounded (st : ContentLoader) (p : Platform) (n : string)
    (limit : Z) (names : list string) :
  0 <= limit ->
  getSimilarComponents st p n limit = Ok names ->
  Z.of_nat (List.length names) <= limit /\ (limit = 0 -> names = []).
Proof.
  intros Hlimit Hget. unfold getSimilarComponents in Hget.
  destruct (listComponents st p None) as [components|e]; [|discriminate].
  simpl in Hget. injection Hget as <-. rewrite length_map.
  split; [apply slice0_length; exact Hlimit|].
  intros ->. reflexivity.
Qed.

(** X15: when the matcher only returns documents of the collection it was
    given, every suggestion is the name of a component of the platform. *)
Theorem getSimilarComponents_from_corpus (st : ContentLoader) (p : Platform) (n : string)
    (limit : Z) (names : list string) :
  results_from_collection ->
  Ready st ->
  getSimilarComponents st p n limit = Ok names ->
  forall s, In s names -> has_component (corpus_of st p) s.
Proof.
  intros Hfrom H Hget s Hs. unfold getSimilarComponents in Hget.
  rewrite (listComponents_ready p None H) in Hget. simpl in Hget.
  injection Hget as <-. apply in_map_iff in Hs. destruct Hs as (r & <- & Hr).
  apply slice0_In, Hfrom in Hr. simpl in Hr.
  apply Array_sort_In, pushed_components_In in Hr.
  destruct Hr as (cat & it & Hcat & Hit & ->). exists cat, it. auto.
Qed.

End Suggestions.

Lemma getSimilarComponents_bounded_witness :
  0 <= 1 /\
  getSimilarComponents SampleHost.ready Web "butto" 1 = Ok ["button"] /\
  Z.of_nat (List.length ["button"]) <= 1 /\ (1 = 0 -> ["button"] = []).
Proof.
  split; [lia|]. split; [reflexivity|].
  exact (@getSimilarComponents_bounded SampleHost.host SampleHost.ready Web "butto" 1
           ["button"] ltac:(lia) eq_refl).
Defined.

Lemma getSimilarComponents_from_corpus_witness :
  @results_from_collection SampleHost.host /\ Ready SampleHost.ready /\
  getSimilarComponents SampleHost.ready Web "butto" 5 = Ok ["button"; "button"] /\
  forall s, In s ["button"; "button"] -> has_component (corpus_of SampleHost.ready Web) s.
Proof.
  split; [exact sample_results_from_collection|]. split; [exact sample_ready|].
  split; [reflexivity|].
  exact (@getSimilarComponents_from_corpus SampleHost.host SampleHost.ready Web "butto" 5
           ["button"; "button"] sample_results_from_collection sample_ready eq_refl).
Defined.

(** ** The outcome of [initialize] *)

(** X16: on a fresh loader [initialize] succeeds exactly when the file
    parses to an object that has both the [web] and the [native] key; the
    ["how-to-test"] key plays no part.  The state it leaves is then the
    document with the two indices built from it. *)
Theorem initialize_succeeds_iff (file : FileOutcome) (st : ContentLoader) :
  initialize file new_ContentLoader = (st, Ok tt)
  <-> exists c ws ns,
        file = Parsed (JObject c) /\ web c = Some ws /\ native c = Some ns /\
        st = ready_state c ws ns.
Proof.
  split.
  - intros Hinit. unfold initialize in Hinit. simpl in Hinit.
    destruct file as [| |[|c]]; simpl in Hinit; try discriminate.
    unfold createSearchIndex, categories_of in Hinit. simpl in Hinit.
    destruct (web c) as [ws|] eqn:Hw; simpl in Hinit; try discriminate.
    destruct (native c) as [ns|] eqn:Hn; simpl in Hinit; try discriminate.
    injection Hinit as <-. exists c, ws, ns. repeat split; assumption.
  - intros (c & ws & ns & -> & Hw & Hn & ->). apply initialize_good; assumption.
Qed.

(** X17: a failed [initialize] can be tried again: whatever the first file
    was, a later call on the same loader with a document that has both
    platform keys succeeds and leaves exactly the state a first successful
    call leaves. *)
Theorem initialize_retry (bad : FileOutcome) (st : ContentLoader) (e : Error)
    (c : ContentStructure) (ws ns : list ContentCategory) :
  initialize bad new_ContentLoader = (st, Throw e) ->
  web c = Some ws -> native c = Some ns ->
  initialize (Parsed (JObject c)) st = (ready_state c ws ns, Ok tt) /\
  initialize (Parsed (JObject c)) st = initialize (Parsed (JObject c)) new_ContentLoader.
Proof.
  intros Hbad Hw Hn.
  assert (Hidx : indexed st = false).
  { unfold initialize in Hbad. simpl in Hbad.
    destruct bad as [| |[|c']]; simpl in Hbad; try (injection Hbad as <- _; reflexivity).
    unfold createSearchIndex, categories_of in Hbad. simpl in Hbad.
    destruct (web c'); simpl in Hbad; [|injection Hbad as <- _; reflexivity].
    destruct (native c'); simpl in Hbad; [discriminate|].
    injection Hbad as <- _. reflexivity. }
  assert (Hretry : initialize (Parsed (JObject c)) st = (ready_state c ws ns, Ok tt)).
  { unfold initialize, initialize_enter. rewrite Hidx.
    apply initialize_resume_good; assumption. }
  split; [exact Hretry|]. rewrite Hretry. symmetry. apply initialize_good; assumption.
Qed.

Lemma initialize_retry_witness :
  initialize (Parsed (JObject SampleHost.web_only)) new_ContentLoader
  = (SampleHost.half_loaded, Throw FailedToInitialize) /\
  initialize (Parsed (JObject SampleHost.corpus)) SampleHost.half_loaded
  = (SampleHost.ready, Ok tt).
Proof.
  split; [reflexivity|].
  exact (proj1 (@initialize_retry (Parsed (JObject SampleHost.web_only))
                  SampleHost.half_loaded FailedToInitialize SampleHost.corpus
                  [SampleHost.controls; SampleHost.forms] [SampleHost.native_controls]
                  eq_refl eq_refl eq_refl)).
Defined.

(** X18: once one call of [initialize] has resolved on a good document,
    nothing that follows loads or builds again: every later call returns at
    the [indexed] check. *)
Theorem resolved_initialize_is_final (c : ContentStructure) (ws ns : list ContentCategory)
    (evs : list Event) :
  web c = Some ws -> native c = Some ns ->
  run (Parsed (JObject c)) (Call :: Settle :: evs) fresh_process
  = {| loader := ready_state c ws ns; pending := 0; loads := 1; builds := 1 |}.
Proof.
  intros Hw Hn. unfold run, fresh_process. cbn [fold_left].
  rewrite call_fresh, (@settle_pending c ws ns Hw Hn).
  induction evs as [|ev evs IH]; [reflexivity|].
  cbn [fold_left]. destruct ev; exact IH.
Qed.

Lemma resolved_initialize_is_final_witness :
  web SampleHost.corpus = Some [SampleHost.controls; SampleHost.forms] /\
  native SampleHost.corpus = Some [SampleHost.native_controls] /\
  run (Parsed (JObject SampleHost.corpus)) [Call; Settle; Call; Call; Settle; Settle; Call]
      fresh_process
  = {| loader := SampleHost.ready; pending := 0; loads := 1; builds := 1 |}.
Proof.
  do 2 (split; [reflexivity|]).
  exact (@resolved_initialize_is_final SampleHost.corpus
           [SampleHost.controls; SampleHost.forms] [SampleHost.native_controls]
           [Call; Call; Settle; Settle; Call] eq_refl eq_refl).
Defined.

(** ** The shared initialization of the serverless function *)

Lemma gateway_step_loads (file : FileOutcome) (g : Gateway) (ev : GatewayEvent) :
  (initPromise g = None /\ gw_loads g = 0%nat) \/
  (initPromise g <> None /\ (gw_loads g <= 1)%nat) ->
  (initPromise (gateway_step file g ev) = None /\ gw_loads (gateway_step file g ev) = 0%nat) \/
  (initPromise (gateway_step file g ev) <> None /\ (gw_loads (gateway_step file g ev) <= 1)%nat).
Proof.
  intros Hinv. destruct ev; unfold gateway_step.
  - destruct (isInitialized g); [exact Hinv|].
    destruct (initPromise g) as [ps|] eqn:E; [rewrite E; exact Hinv|].
    destruct Hinv as [[_ Hl] | [Hne _]]; [|contradiction].
    destruct (initialize_enter (gw_loader g)); right; simpl; split; try discriminate; lia.
  - destruct (initPromise g) as [[| |]|] eqn:E; try (rewrite E; exact Hinv).
    destruct Hinv as [[Hp _] | [_ Hl]]; [discriminate|].
    destruct (initialize_resume file (gw_loader g)) as [st' [u|e]];
      right; simpl; split; try discriminate; exact Hl.
Qed.

(** X19: through the shared promise of [api.js] the content is read at most
    once, whatever the file holds and however requests and the settling of
    the read are interleaved. *)
Theorem gateway_loads_at_most_once (file : FileOutcome) (evs : list GatewayEvent) :
  (gw_loads (gateway_run file evs fresh_gateway) <= 1)%nat.
Proof.
  assert (Hinv : forall g,
             (initPromise g = None /\ gw_loads g = 0%nat) \/
             (initPromise g <> None /\ (gw_loads g <= 1)%nat) ->
             (gw_loads (gateway_run file evs g) <= 1)%nat).
  { induction evs as [|ev evs IH]; intros g Hg.
    - simpl. destruct Hg as [[_ Hl] | [_ Hl]]; lia.
    - simpl. apply IH, gateway_step_loads, Hg. }
  apply Hinv. left. split; reflexivity.
Qed.

(** X20: when the one load fails, the rejected promise stays in
    [initPromise]: no later request and no later state of the file makes the
    function load again, and the loader never becomes ready. *)
Theorem gateway_failure_is_final (bad file' : FileOutcome) (st : ContentLoader) (e : Error)
    (evs : list GatewayEvent) :
  initialize bad new_ContentLoader = (st, Throw e) ->
  let g := gateway_run bad [Request; ReadSettles] fresh_gateway in
  initPromise g = Some Rejected /\ isInitialized g = false /\
  gw_loader g = st /\ indexed (gw_loader g) = false /\
  gateway_run file' evs g = g.
Proof.
  intros Hbad g.
  assert (Hres : initialize_resume bad new_ContentLoader = (st, Throw e)) by exact Hbad.
  assert (Hg : g = {| gw_loader := st; initPromise := Some Rejected;
                      isInitialized := false; gw_loads := 1 |}).
  { unfold g, gateway_run, fresh_gateway. cbn [fold_left].
    unfold gateway_step at 2. cbn [isInitialized initPromise gw_loader initialize_enter
                                     new_ContentLoader indexed gw_loads].
    unfold gateway_step. cbn [initPromise gw_loader gw_loads]. rewrite Hres. reflexivity. }
  assert (Hidx : indexed st = false).
  { unfold initialize_resume in Hres.
    destruct bad as [| |[|c']]; simpl in Hres; try (injection Hres as <- _; reflexivity).
    unfold createSearchIndex, categories_of in Hres. simpl in Hres.
    destruct (web c'); simpl in Hres; [|injection Hres as <- _; reflexivity].
    destruct (native c'); simpl in Hres; [discriminate|].
    injection Hres as <- _. reflexivity. }
  rewrite Hg. cbn [initPromise isInitialized gw_loader].
  repeat split; try assumption.
  induction evs as [|ev evs IH]; [reflexivity|].
  unfold gateway_run in *. cbn [fold_left]. destruct ev; exact IH.
Qed.

(** X21: on a good document any number of requests that arrive before the
    read settles share one load, and the function ends initialized with the
    loader in its ready state. *)
Theorem gateway_overlapping_requests (c : ContentStructure) (ws ns : list ContentCategory)
    (n : nat) :
  web c = Some ws -> native c = Some ns ->
  gateway_run (Parsed (JObject c)) (repeat Request (S n) ++ [ReadSettles]) fresh_gateway
  = {| gw_loader := ready_state c ws ns; initPromise := Some Fulfilled;
       isInitialized := true; gw_loads := 1 |}.
Proof.
  intros Hw Hn. unfold gateway_run. rewrite fold_left_app.
  assert (Hpending : fold_left (gateway_step (Parsed (JObject c))) (repeat Request (S n))
                               fresh_gateway
                     = {| gw_loader := new_ContentLoader; initPromise := Some Pending;
                          isInitialized := false; gw_loads := 1 |}).
  { cbn [repeat fold_left].
    change (gateway_step (Parsed (JObject c)) fresh_gateway Request)
      with {| gw_loader := new_ContentLoader; initPromise := Some Pending;
              isInitialized := false; gw_loads := 1 |}.
    induction n as [|n IH]; [reflexivity|]. cbn [repeat fold_left]. exact IH. }
  rewrite Hpending. cbn [fold_left]. unfold gateway_step.
  cbn [initPromise gw_loader gw_loads].
  rewrite (@initialize_resume_good c ws ns Hw Hn). reflexivity.
Qed.

Lemma gateway_failure_is_final_witness :
  initialize (Parsed (JObject SampleHost.web_only)) new_ContentLoader
  = (SampleHost.half_loaded, Throw FailedToInitialize) /\
  gateway_run (Parsed (JObject SampleHost.corpus)) [Request; ReadSettles; Request]
    (gateway_run (Parsed (JObject SampleHost.web_only)) [Request; ReadSettles] fresh_gateway)
  = gateway_run (Parsed (JObject SampleHost.web_only)) [Request; ReadSettles] fresh_gateway.
Proof.
  split; [reflexivity|].
  destruct (@gateway_failure_is_final (Parsed (JObject SampleHost.web_only))
              (Parsed (JObject SampleHost.corpus)) SampleHost.half_loaded
              FailedToInitialize [Request; ReadSettles; Request] eq_refl)
    as (_ & _ & _ & _ & Hfinal).
  exact Hfinal.
Defined.

Lemma gateway_overlapping_requests_witness :
  web SampleHost.corpus = Some [SampleHost.controls; SampleHost.forms] /\
  native SampleHost.corpus = Some [SampleHost.native_controls] /\
  gateway_run (Parsed (JObject SampleHost.corpus)) [Request; Request; Request; ReadSettles]
    fresh_gateway
  = {| gw_loader := SampleHost.ready; initPromise := Some Fulfilled;
       isInitialized := true; gw_loads := 1 |}.
Proof.
  do 2 (split; [reflexivity|]).
  exact (@gateway_overlapping_requests SampleHost.corpus
           [SampleHost.controls; SampleHost.forms] [SampleHost.native_controls] 2
           eq_refl eq_refl).
Defined.

(** ** Tool handlers *)

Section HandlerFacts.
Context {RT : Runtime}.

Lemma getSimilarComponents_ready (st : ContentLoader) (p : Platform) (n : string) (limit : Z) :
  Ready st -> succeeds (getSimilarComponents st p n limit).
Proof.
  intros H. unfold getSimilarComponents.
  rewrite (listComponents_ready p None H). simpl. eexists. reflexivity.
Qed.


(** X22: on a ready loader the get-component handlers never throw.  For a
    name the platform holds they answer with its record and no error flag;
    for any other name they answer with the error flag, the name asked for
    and at most five suggestions. *)
Theorem handleGetComponent_ready (st : ContentLoader) (p : Platform) (args : ToolArgs) :
  Ready st ->
  (has_component (corpus_of st p) (arg_component args) ->
   exists r, handleGetComponent st p args = Ok {| body := ComponentBody r; isError := false |} /\
             name r = arg_component args) /\
  (~ has_component (corpus_of st p) (arg_component args) ->
   exists suggestions,
     handleGetComponent st p args
     = Ok {| body := NotFoundBody (arg_component args) suggestions; isError := true |} /\
     (List.length suggestions <= 5)%nat).
Proof.
  intros H. unfold handleGetComponent. rewrite (getComponent_ready p _ H). split.
  - intros Hhas. apply find_component_succeeds in Hhas. destruct Hhas as [r Hr].
    rewrite Hr. exists r. split; [reflexivity|]. eapply find_component_name; exact Hr.
  - intros Habsent.
    destruct (find_component (corpus_of st p) (arg_component args)) as [r|e] eqn:E.
    { exfalso. apply Habsent, find_component_succeeds. eexists. exact E. }
    destruct (getSimilarComponents_ready p (arg_component args) 5 H) as [suggestions Hs].
    rewrite Hs. simpl. exists suggestions. split; [reflexivity|].
    assert (Hbound : Z.of_nat (List.length suggestions) <= 5).
    { unfold getSimilarComponents in Hs.
      destruct (listComponents st p None); [|discriminate]. simpl in Hs.
      injection Hs as <-. rewrite length_map. apply slice0_length. lia. }
    lia.
Qed.

(** X23: while the loader holds no document and no index, the handlers
    throw the loader's not-initialized error to the dispatcher; the
    not-found branch of the get-component handlers does not turn a missing
    corpus into a "component not found" answer. *)
Theorem handlers_uninitialized (st : ContentLoader) (p : Platform) (args : ToolArgs) :
  content st = None ->
  webSearchIndex st = None ->
  nativeSearchIndex st = None ->
  handleListComponents st p args = Throw ContentNotLoaded /\
  handleGetComponent st p args = Throw ContentNotLoaded /\
  handleSearchCriteria st p args = Throw SearchIndexNotInitialized /\
  handleGetComponentNativeNotes st args = Throw ContentNotLoaded.
Proof.
  intros Hc Hw Hn.
  unfold handleListComponents, handleGetComponent, handleSearchCriteria,
    handleGetComponentNativeNotes, getComponentContent, getSimilarComponents,
    getComponent, listComponents, categories_of, search.
  rewrite Hc. simpl. repeat split.
  destruct p; [rewrite Hw | rewrite Hn]; reflexivity.
Qed.

(** X24: the native-notes handler reads the iOS notes only when the
    platform argument is exactly "ios"; for every other value, and when the
    argument is missing, it reads the Android notes.  When the notes it reads
    are a non-empty string, they are the answer. *)
Theorem handleGetComponentNativeNotes_platform (st : ContentLoader) (args : ToolArgs)
    (r : ContentItem) :
  getComponent st Native (arg_component args) = Ok r ->
  (arg_platform args = Some "ios" ->
   forall s, iosDeveloperNotes r = Some s -> s <> "" ->
             handleGetComponentNativeNotes st args
             = Ok {| body := TextBody s; isError := false |}) /\
  (arg_platform args <> Some "ios" ->
   forall s, androidDeveloperNotes r = Some s -> s <> "" ->
             handleGetComponentNativeNotes st args
             = Ok {| body := TextBody s; isError := false |}).
Proof.
  intros Hget.
  assert (Hread : forall f s, native_notes_format args = f -> format_field f r = Some s ->
                              s <> "" ->
                              handleGetComponentNativeNotes st args
                              = Ok {| body := TextBody s; isError := false |}).
  { intros f s Hf Hs Hne. unfold handleGetComponentNativeNotes, getComponentContent.
    rewrite Hget, Hf. simpl. rewrite Hs. simpl.
    destruct (s =? "")%string eqn:E; [apply String.eqb_eq in E; contradiction|].
    reflexivity. }
  split.
  - intros Hp s Hs Hne. apply (Hread IosDeveloperNotes); [|exact Hs | exact Hne].
    unfold native_notes_format. rewrite Hp. reflexivity.
  - intros Hp s Hs Hne. apply (Hread AndroidDeveloperNotes); [|exact Hs | exact Hne].
    unfold native_notes_format. destruct (arg_platform args) as [pl|]; [|reflexivity].
    destruct (pl =? "ios")%string eqn:E; [|reflexivity].
    apply String.eqb_eq in E. subst pl. contradiction.
Qed.


Hypothesis fuse_limit :
  forall (T : Type) (f : Fuse T) (q : string) (k : Z),
    0 <= k -> Z.of_nat (List.length (fuse_search f q (Some k))) <= k.

(** X26: a search request without [max_results], or with [max_results] 0,
    is run with the limit 10: on a ready loader, with a matcher that honours
    its limit, it answers without error flag and with at most ten results. *)
Theorem handleSearchCriteria_default (st : ContentLoader) (p : Platform) (args : ToolArgs) :
  Ready st ->
  arg_max_results args = None \/ arg_max_results args = Some 0 ->
  exists results,
    handleSearchCriteria st p args = Ok {| body := ResultsBody results; isError := false |} /\
    search st p (arg_query args) 10 = Ok results /\
    (List.length results <= 10)%nat.
Proof.
  intros H Hmax. unfold handleSearchCriteria.
  assert (Hten : max_results_or_10 args = 10).
  { unfold max_results_or_10. destruct Hmax as [-> | ->]; reflexivity. }
  rewrite Hten.
  destruct (search_ready p (arg_query args) 10 H) as [idx Hsearch].
  rewrite Hsearch. simpl. eexists. split; [reflexivity|]. split; [reflexivity|].
  rewrite length_map.
  pose proof (fuse_limit idx (arg_query args) (k := 10) ltac:(lia)). lia.
Qed.

End HandlerFacts.

Lemma handleGetComponent_ready_witness :
  Ready SampleHost.ready /\
  exists suggestions,
    handleGetComponent SampleHost.ready Web
      {| arg_category := None; arg_component := "butto"; arg_query := "";
         arg_max_results := None; arg_platform := None |}
    = Ok {| body := NotFoundBody "butto" suggestions; isError := true |} /\
    (List.length suggestions <= 5)%nat.
Proof.
  split; [exact sample_ready|].
  apply (proj2 (@handleGetComponent_ready SampleHost.host SampleHost.ready Web
                  {| arg_category := None; arg_component := "butto"; arg_query := "";
                     arg_max_results := None; arg_platform := None |} sample_ready)).
  intros (cat & it & Hcat & Hit & Hname).
  simpl in Hcat. destruct Hcat as [<- | [<- | []]]; simpl in Hit.
  - destruct Hit as [<- | [<- | []]]; discriminate Hname.
  - destruct Hit as [<- | []]; discriminate Hname.
Defined.

Lemma handlers_uninitialized_witness :
  content new_ContentLoader = None /\
  webSearchIndex new_ContentLoader = None /\
  nativeSearchIndex new_ContentLoader = None /\
  handleGetComponent new_ContentLoader Web
    {| arg_category := None; arg_component := "button"; arg_query := "";
       arg_max_results := None; arg_platform := None |}
  = Throw ContentNotLoaded.
Proof.
  do 3 (split; [reflexivity|]).
  destruct (@handlers_uninitialized SampleHost.host new_ContentLoader Web
              {| arg_category := None; arg_component := "button"; arg_query := "";
                 arg_max_results := None; arg_platform := None |}
              eq_refl eq_refl eq_refl) as (_ & Hget & _).
  exact Hget.
Defined.

Lemma handleGetComponentNativeNotes_platform_witness :
  getComponent SampleHost.ready Native "switch"
  = Ok (with_category SampleHost.switch SampleHost.native_controls) /\
  handleGetComponentNativeNotes SampleHost.ready
    {| arg_category := None; arg_component := "switch"; arg_query := "";
       arg_max_results := None; arg_platform := Some "iOS" |}
  = Ok {| body := TextBody "Use SwitchCompat"; isError := false |}.
Proof.
  split; [reflexivity|].
  refine (proj2 (@handleGetComponentNativeNotes_platform SampleHost.host SampleHost.ready
                   {| arg_category := None; arg_component := "switch"; arg_query := "";
                      arg_max_results := None; arg_platform := Some "iOS" |}
                   _ eq_refl) _ "Use SwitchCompat" eq_refl _); discriminate.
Defined.


Lemma handleSearchCriteria_default_witness :
  Ready SampleHost.ready /\
  exists results,
    handleSearchCriteria SampleHost.ready Web
      {| arg_category := None; arg_component := ""; arg_query := "button";
         arg_max_results := Some 0; arg_platform := None |}
    = Ok {| body := ResultsBody results; isError := false |} /\
    search SampleHost.ready Web "button" 10 = Ok results /\
    (List.length results <= 10)%nat.
Proof.
  split; [exact sample_ready|].
  exact (@handleSearchCriteria_default SampleHost.host sample_fuse_limit SampleHost.ready Web
           {| arg_category := None; arg_component := ""; arg_query := "button";
              arg_max_results := Some 0; arg_platform := None |}
           sample_ready (or_intror eq_refl)).
Defined.
